(** * Cubic splines of [Splines.py]: a shallow embedding and its properties

    The module [Splines.py] defines two classes.  [CSpline] stores nodes,
    values and slopes, derives the quadratic and cubic coefficient of every
    segment, and evaluates the piecewise cubic by a bisection over the nodes.
    [CSpline_Clasica] assembles a tridiagonal system for the slopes, hands it
    to SciPy's [solve_banded] and then runs the constructor of [CSpline].

    Numbers are exact rationals ([Q], compared with [==]): the statements
    below are the exact-arithmetic content of the code.  IEEE rounding, [inf]
    and [nan] are outside the model; in particular a division by zero, which
    NumPy answers with [inf] or [nan] and a warning, is [0] here.  Both go on
    without raising, and every arithmetic statement below is made where the
    divisors are nonzero.

    NumPy's exceptions are kept: a computation returns [Ok v] or [Raise e]. *)

From Stdlib Require Import List ZArith QArith Qabs Lia Lra Psatz Bool.
Import ListNotations.
Open Scope Q_scope.

(** ** Exceptions *)

Inductive exn : Type :=
| ValueError    (* operands could not be broadcast together *)
| IndexError    (* index out of bounds *)
| LinAlgError.  (* raised by the linear solver *)

Inductive result (A : Type) : Type :=
| Ok (a : A)
| Raise (e : exn).

Arguments Ok {A} a.
Arguments Raise {A} e.

Definition bind {A B : Type} (m : result A) (k : A -> result B) : result B :=
  match m with
  | Ok a => k a
  | Raise e => Raise e
  end.

Notation "x <- m ;; k" := (bind m (fun x => k))
  (at level 61, m at next level, right associativity).

Fixpoint mapM {A B : Type} (f : A -> result B) (l : list A) : result (list B) :=
  match l with
  | [] => Ok []
  | a :: l' => b <- f a ;; bs <- mapM f l' ;; Ok (b :: bs)
  end.

(** ** The NumPy operations the module uses *)

Module np.

(** [np.diff] of a one-dimensional array. *)
Fixpoint diff (a : list Q) : list Q :=
  match a with
  | u :: (v :: _) as t => (v - u) :: diff t
  | _ => []
  end.

(** The basic slice [a[start : len(a) - drop]]: [a[1:]] is [slice 1 0 a],
    [a[:-1]] is [slice 0 1 a], [a[1:-1]] is [slice 1 1 a]. *)
Definition slice (start drop : nat) (a : list Q) : list Q :=
  firstn (length a - drop - start) (skipn start a).

Fixpoint map2 {A B C : Type} (f : A -> B -> C) (a : list A) (b : list B) : list C :=
  match a, b with
  | u :: a', v :: b' => f u v :: map2 f a' b'
  | _, _ => []
  end.

(** An elementwise binary operation on one-dimensional arrays, with
    NumPy's broadcasting rule: equal lengths, or one operand of length 1. *)
Definition broadcast2 (f : Q -> Q -> Q) (a b : list Q) : result (list Q) :=
  if Nat.eqb (length a) (length b) then Ok (map2 f a b)
  else match a, b with
       | [u], _ => Ok (map (f u) b)
       | _, [v] => Ok (map (fun u => f u v) a)
       | _, _ => Raise ValueError
       end.

Definition add := broadcast2 Qplus.
Definition sub := broadcast2 Qminus.
Definition mul := broadcast2 Qmult.
Definition div := broadcast2 Qdiv.

(** A Python scalar times an array, and [a**2]. *)
Definition scale (c : Q) (a : list Q) : list Q := map (Qmult c) a.
Definition square (a : list Q) : list Q := map (fun u => u ^ 2) a.

(** Python's index normalisation: [-len <= i < len]. *)
Definition norm_index (n : nat) (i : Z) : result nat :=
  if ((0 <=? i) && (i <? Z.of_nat n))%Z then Ok (Z.to_nat i)
  else if ((- Z.of_nat n <=? i) && (i <? 0))%Z then Ok (Z.to_nat (Z.of_nat n + i))
  else Raise IndexError.

Definition get_item {A : Type} (d : A) (a : list A) (i : Z) : result A :=
  j <- norm_index (length a) i ;; Ok (nth j a d).

(** The list [a] with [v] at position [j]. *)
Definition put {A : Type} (j : nat) (v : A) (a : list A) : list A :=
  firstn j a ++ v :: skipn (S j) a.

Definition set_item {A : Type} (a : list A) (i : Z) (v : A) : result (list A) :=
  j <- norm_index (length a) i ;; Ok (put j v a).

(** The list [a] with its [k] elements from position [start] replaced by [v]. *)
Definition splice {A : Type} (start k : nat) (v a : list A) : list A :=
  firstn start a ++ v ++ skipn (start + k) a.

(** The assignment [a[start : len(a) - drop] = v]: [v] has the length of
    the slice, or length 1 and is broadcast. *)
Definition set_slice (start drop : nat) (a v : list Q) : result (list Q) :=
  let k := (length a - drop - start)%nat in
  if Nat.eqb (length v) k
  then Ok (splice start k v a)
  else match v with
       | [c] => Ok (splice start k (repeat c k) a)
       | _ => Raise ValueError
       end.

(** [np.zeros(n)] and [np.zeros((m, n))]. *)
Definition zeros (n : nat) : list Q := repeat 0 n.
Definition zeros2 (m n : nat) : list (list Q) := repeat (zeros n) m.

(** The assignment to a part of row [r] of a two-dimensional array. *)
Definition on_row (r : Z) (f : list Q -> result (list Q)) (A : list (list Q))
  : result (list (list Q)) :=
  row <- get_item [] A r ;; row' <- f row ;; set_item A r row'.

(** [np.searchsorted(a, v, side="right")] for one key: NumPy's bisection,
    which narrows [lo, hi), moving [hi] down when [v < a[mid]] and [lo] up
    otherwise.  Every key is searched on its own; NumPy starts from the
    bounds of the previous key, which finds the same index in a sorted
    array.  The interval shrinks at every step, so [length a] steps are
    enough. *)
Fixpoint bisect_right (fuel : nat) (a : list Q) (v : Q) (lo hi : nat) : nat :=
  match fuel with
  | O => lo
  | S fuel' =>
      if (lo <? hi)%nat then
        let mid := (lo + (hi - lo) / 2)%nat in
        if Qlt_le_dec v (nth mid a 0)
        then bisect_right fuel' a v lo mid
        else bisect_right fuel' a v (S mid) hi
      else lo
  end.

Definition searchsorted_right (a : list Q) (v : Q) : nat :=
  bisect_right (length a) a v 0 (length a).

(** [np.clip(i, lo, hi)] is [minimum(hi, maximum(i, lo))]. *)
Definition clip (lo hi i : Z) : Z := Z.min hi (Z.max i lo).

(** An array of any shape: its shape and its elements in row-major order.
    A scalar has the empty shape. *)
Record ndarray (A : Type) : Type := mk_ndarray { shape : list nat; data : list A }.

Arguments mk_ndarray {A} shape data.
Arguments shape {A} n.
Arguments data {A} n.

Definition scalar {A : Type} (a : A) : ndarray A := mk_ndarray [] [a].

Definition nd_map {A B : Type} (f : A -> B) (x : ndarray A) : ndarray B :=
  mk_ndarray (shape x) (map f (data x)).

(** An elementwise operation on two arrays of one shape.  Operands of
    different shapes, which NumPy would try to broadcast, are reported as
    [ValueError]; [CSpline.__call__] only combines arrays that have the
    shape of its argument. *)
Definition nd_map2 (f : Q -> Q -> Q) (x y : ndarray Q) : result (ndarray Q) :=
  if list_eq_dec Nat.eq_dec (shape x) (shape y)
  then if Nat.eqb (length (data x)) (length (data y))
       then Ok (mk_ndarray (shape x) (map2 f (data x) (data y)))
       else Raise ValueError
  else Raise ValueError.

(** Integer-array indexing [a[i]]: the result has the shape of [i]. *)
Definition take (a : list Q) (i : ndarray Z) : result (ndarray Q) :=
  d <- mapM (get_item 0 a) (data i) ;; Ok (mk_ndarray (shape i) d).

End np.

(** ** class CSpline *)

Module CSpline.

Record t : Type := mk {
  xi : list Q;
  yi : list Q;
  si : list Q;
  ai : list Q;
  bi : list Q
}.

(** [CSpline.__init__(self, xi, yi, si)]. *)
Definition __init__ (xi yi si : list Q) : result t :=
  let dx := np.diff xi in
  let dy := np.diff yi in
  (* self.ai = (3*dy/dx - self.si[1:] - 2*self.si[:-1]) / dx *)
  q1 <- np.div (np.scale 3 dy) dx ;;
  q2 <- np.sub q1 (np.slice 1 0 si) ;;
  q3 <- np.sub q2 (np.scale 2 (np.slice 0 1 si)) ;;
  ai <- np.div q3 dx ;;
  (* self.bi = (self.si[1:] + self.si[:-1] - 2*dy/dx) / dx**2 *)
  r1 <- np.add (np.slice 1 0 si) (np.slice 0 1 si) ;;
  r2 <- np.div (np.scale 2 dy) dx ;;
  r3 <- np.sub r1 r2 ;;
  bi <- np.div r3 (np.square dx) ;;
  Ok (mk xi yi si ai bi).

(** [CSpline.__call__(self, x)], with [x] an array of any shape. *)
Definition __call__ (self : t) (x : np.ndarray Q) : result (np.ndarray Q) :=
  let i := np.nd_map (fun q => (Z.of_nat (np.searchsorted_right (xi self) q) - 1)%Z) x in
  let i := np.nd_map (np.clip 0 (Z.of_nat (length (xi self)) - 2)) i in
  xi_i <- np.take (xi self) i ;;
  dx <- np.nd_map2 Qminus x xi_i ;;
  yi_i <- np.take (yi self) i ;;
  si_i <- np.take (si self) i ;;
  ai_i <- np.take (ai self) i ;;
  bi_i <- np.take (bi self) i ;;
  h1 <- np.nd_map2 Qmult dx bi_i ;;
  h2 <- np.nd_map2 Qplus ai_i h1 ;;
  h3 <- np.nd_map2 Qmult dx h2 ;;
  h4 <- np.nd_map2 Qplus si_i h3 ;;
  h5 <- np.nd_map2 Qmult dx h4 ;;
  np.nd_map2 Qplus yi_i h5.

End CSpline.

(** ** class CSpline_Clasica *)

Module CSpline_Clasica.

(** The banded storage of [solve_banded((1,1), A, p)]: row 0 of [A] is the
    super-diagonal, row 1 the main diagonal, row 2 the sub-diagonal. *)
Definition banded : Type := list (list Q).

(** SciPy's [solve_banded((1, 1), A, p)] is not part of the repository: the
    constructor takes it as an argument. *)
Definition solver : Type := banded -> list Q -> result (list Q).

(** Lines 83 to 110 of [CSpline_Clasica.__init__]: the matrix [A] and the
    right-hand side [p]. *)
Definition assemble (xi yi : list Q) : result (banded * list Q) :=
  let dx := np.diff xi in
  let dy := np.diff yi in
  let A := np.zeros2 3 (length dx + 1) in
  (* diagonal superior *)
  A <- np.on_row 0 (fun r => np.set_item r 1 1) A ;;
  A <- np.on_row 0 (fun r => np.set_slice 2 0 r (np.slice 0 1 dx)) A ;;
  (* diagonal principal *)
  A <- np.on_row 1 (fun r => np.set_item r 0 2) A ;;
  d <- np.add (np.slice 0 1 dx) (np.slice 1 0 dx) ;;
  A <- np.on_row 1 (fun r => np.set_slice 1 1 r (np.scale 2 d)) A ;;
  A <- np.on_row 1 (fun r => np.set_item r (-1) 2) A ;;
  (* diagonal inferior *)
  A <- np.on_row 2 (fun r => np.set_item r (-2) 1) A ;;
  A <- np.on_row 2 (fun r => np.set_slice 0 2 r (np.slice 1 0 dx)) A ;;
  (* lado derecho *)
  let p := np.zeros (length dx + 1) in
  m <- np.div (np.scale 3 dy) dx ;;
  p <- np.set_slice 0 1 p m ;;
  v <- np.get_item 0 p (-2) ;;
  p <- np.set_item p (-1) v ;;
  w1 <- np.mul (np.slice 1 1 p) (np.slice 0 1 dx) ;;
  w2 <- np.mul (np.slice 0 2 p) (np.slice 1 0 dx) ;;
  w <- np.add w1 w2 ;;
  p <- np.set_slice 1 1 p w ;;
  Ok (A, p).

(** [CSpline_Clasica.__init__(self, xi, yi)]. *)
Definition __init__ (solve_banded : solver) (xi yi : list Q) : result CSpline.t :=
  Ap <- assemble xi yi ;;
  si <- solve_banded (fst Ap) (snd Ap) ;;
  CSpline.__init__ xi yi si.

End CSpline_Clasica.

(** * The integrators of [EcuacionesDiferencialesOrdinarias.py] and
    [ecuaciones-diferenciales/segundo_orden.py]

    The integrators are embedded for a scalar state: the initial conditions
    are numbers, the callback maps a number and a time to a number, and the
    arrays [r] and [v] are one-dimensional.  [_condiciones_iniciales] itself
    is embedded for arguments of any shape. *)

(** ** Python values and exceptions of the integrators *)

(** The exceptions of the two integrator modules: the ones above, and
    Python's [TypeError]. *)
Inductive py_exn : Type :=
| Builtin (e : exn)
| TypeError.

Inductive py (A : Type) : Type :=
| Return (a : A)
| Throw (e : py_exn).

Arguments Return {A} a.
Arguments Throw {A} e.

Definition py_bind {A B : Type} (m : py A) (k : A -> py B) : py B :=
  match m with
  | Return a => k a
  | Throw e => Throw e
  end.

Notation "x <~ m ;; k" := (py_bind m (fun x => k))
  (at level 61, m at next level, right associativity).

Definition lift {A : Type} (m : result A) : py A :=
  match m with
  | Ok a => Return a
  | Raise e => Throw (Builtin e)
  end.

(** A [for] loop over the list [ns], threading the variables [s] that the
    body assigns. *)
Fixpoint for_each {S : Type} (body : nat -> S -> py S) (ns : list nat) (s : S) : py S :=
  match ns with
  | [] => Return s
  | n :: ns' => s' <~ body n s ;; for_each body ns' s'
  end.

(** [range(n)] for a Python integer [n]: empty when [n <= 0]. *)
Definition range (n : Z) : list nat := seq 0 (Z.to_nat n).

Fixpoint py_mapM {A B : Type} (f : A -> py B) (l : list A) : py (list B) :=
  match l with
  | [] => Return []
  | a :: l' => b <~ f a ;; bs <~ py_mapM f l' ;; Return (b :: bs)
  end.

(** [a[n]] and [a[n] = v] on a one-dimensional array, for a loop index [n]. *)
Definition item (a : list Q) (n : nat) : py Q := lift (np.get_item 0 a (Z.of_nat n)).

Definition set_at (a : list Q) (n : nat) (v : Q) : py (list Q) :=
  lift (np.set_item a (Z.of_nat n) v).

(** ** module EcuacionesDiferencialesOrdinarias *)

Module EcuacionesDiferencialesOrdinarias.

(** The first argument of [_condiciones_iniciales]: the callers pass the
    integer [t.size] or the tuple [t.shape]. *)
Inductive steps_arg : Type :=
| Int (n : nat)
| Tuple (l : list nat).

(** What [_condiciones_iniciales] returns: one array, or a list of arrays. *)
Inductive arrays : Type :=
| One (r : np.ndarray Q)
| Many (l : list (np.ndarray Q)).

Definition prod_shape (shape : list nat) : nat := fold_right Nat.mul 1%nat shape.

(** [np.zeros((steps, *shape))]: every entry of the shape must be an integer. *)
Definition zeros_steps (steps : steps_arg) (shape : list nat) : py (np.ndarray Q) :=
  match steps with
  | Int n => Return (np.mk_ndarray (n :: shape) (np.zeros (n * prod_shape shape)))
  | Tuple _ => Throw TypeError
  end.

(** The assignment [r[0] = r0] to the first row of [r], for [r0] of the shape
    of a row.  A value of another shape, which NumPy would try to broadcast,
    is reported as [ValueError]; [_condiciones_iniciales] only assigns values
    of the shape of a row. *)
Definition set_first_row (r r0 : np.ndarray Q) : py (np.ndarray Q) :=
  match np.shape r with
  | [] => Throw (Builtin IndexError)
  | O :: _ => Throw (Builtin IndexError)
  | S _ :: row =>
      if list_eq_dec Nat.eq_dec (np.shape r0) row
      then Return (np.mk_ndarray (np.shape r)
                     (np.splice 0 (prod_shape row) (np.data r0) (np.data r)))
      else Throw (Builtin ValueError)
  end.

(** [_condiciones_iniciales(steps, *args)], with [args] after [np.asarray]. *)
Definition _condiciones_iniciales (steps : steps_arg) (args : list (np.ndarray Q))
  : py arrays :=
  let shape := map np.shape args in
  if (1 <? length (nodup (list_eq_dec Nat.eq_dec) shape))%nat
  then Throw (Builtin ValueError)
  else
    shape <~ lift (np.get_item [] shape 0) ;;
    arrays <~ py_mapM (fun r0 => r <~ zeros_steps steps shape ;; set_first_row r r0) args ;;
    Return (match arrays with
            | [r] => One r
            | _ => Many arrays
            end).

(** The callbacks [f(r, t, **kwargs)] and [a(r, t, **kwargs)] with their
    keyword arguments fixed, for a scalar state: a number and a time to a
    number. *)
Definition callback : Type := Q -> Q -> Q.

(** [r = _condiciones_iniciales(t.size, r0)]: one argument gives one array.
    The other branch is never taken; it is closed with [TypeError]. *)
Definition one_array (ret : arrays) : py (list Q) :=
  match ret with
  | One r => Return (np.data r)
  | Many _ => Throw TypeError
  end.

(** [r, v = _condiciones_iniciales(t.size, r0, v0)]: two arguments give a
    list of two arrays.  The other branch is never taken; it is closed with
    [ValueError]. *)
Definition two_arrays (ret : arrays) : py (list Q * list Q) :=
  match ret with
  | Many [r; v] => Return (np.data r, np.data v)
  | _ => Throw (Builtin ValueError)
  end.

(** [SaltoRana(a, r0, v0, t, **kwargs)] for scalar [r0], [v0]. *)
Definition SaltoRana (a : callback) (r0 v0 : Q) (t : list Q) : py (list Q * list Q) :=
  let dt := np.diff t in
  ret <~ _condiciones_iniciales (Int (length t)) [np.scalar r0; np.scalar v0] ;;
  rv <~ two_arrays ret ;;
  t0 <~ item t 0 ;;
  let a0 := a r0 t0 in
  st <~ for_each
         (fun n '(r, v, a0) =>
            vn <~ item v n ;;
            dtn <~ item dt n ;;
            let vmedio := vn + (1 # 2) * dtn * a0 in
            rn <~ item r n ;;
            r <~ set_at r (n + 1) (rn + dtn * vmedio) ;;
            rn1 <~ item r (n + 1) ;;
            tn1 <~ item t (n + 1) ;;
            let a0 := a rn1 tn1 in
            v <~ set_at v (n + 1) (vmedio + (1 # 2) * dtn * a0) ;;
            Return (r, v, a0))
         (range (Z.of_nat (length t) - 1)) (fst rv, snd rv, a0) ;;
  Return (fst (fst st), snd (fst st)).

(** [Euler(f, r0, t, **kwargs)] for a scalar [r0]. *)
Definition Euler (f : callback) (r0 : Q) (t : list Q) : py (list Q) :=
  let dt := np.diff t in
  ret <~ _condiciones_iniciales (Int (length t)) [np.scalar r0] ;;
  r <~ one_array ret ;;
  for_each
    (fun n r =>
       rn <~ item r n ;;
       dtn <~ item dt n ;;
       tn <~ item t n ;;
       set_at r (n + 1) (rn + dtn * f rn tn))
    (range (Z.of_nat (length t) - 1)) r.

(** [EulerCromer(a, r0, v0, t, **kwargs)] for scalar [r0], [v0]: it passes
    [t.shape] where the other integrators pass [t.size]. *)
Definition EulerCromer (a : callback) (r0 v0 : Q) (t : list Q) : py (list Q * list Q) :=
  let dt := np.diff t in
  ret <~ _condiciones_iniciales (Tuple [length t]) [np.scalar r0; np.scalar v0] ;;
  rv <~ two_arrays ret ;;
  st <~ for_each
         (fun n '(r, v) =>
            rn <~ item r n ;;
            dtn <~ item dt n ;;
            vn <~ item v n ;;
            r <~ set_at r (n + 1) (rn + dtn * vn) ;;
            rn1 <~ item r (n + 1) ;;
            tn1 <~ item t (n + 1) ;;
            v <~ set_at v (n + 1) (vn + dtn * a rn1 tn1) ;;
            Return (r, v))
         (range (Z.of_nat (length t) - 1)) (fst rv, snd rv) ;;
  Return st.

(** [RungeKutta4(f, r0, t, *args, **kwargs)] for a scalar [r0]. *)
Definition RungeKutta4 (f : callback) (r0 : Q) (t : list Q) : py (list Q) :=
  let dt := np.diff t in
  ret <~ _condiciones_iniciales (Int (length t)) [np.scalar r0] ;;
  r <~ one_array ret ;;
  for_each
    (fun n r =>
       dtn <~ item dt n ;;
       rn <~ item r n ;;
       tn <~ item t n ;;
       let K1 := dtn * f rn tn in
       let K2 := dtn * f (rn + (1 # 2) * K1) (tn + (1 # 2) * dtn) in
       let K3 := dtn * f (rn + (1 # 2) * K2) (tn + (1 # 2) * dtn) in
       let K4 := dtn * f (rn + K3) (tn + dtn) in
       set_at r (n + 1) (rn + (K1 + 2 * K2 + 2 * K3 + K4) / 6))
    (range (Z.of_nat (length t) - 1)) r.

End EcuacionesDiferencialesOrdinarias.

(** ** module segundo_orden *)

Module segundo_orden.

(** [np.arange(steps)] and [np.zeros(steps)] for a Python integer [steps]:
    the first is empty for a negative [steps], the second refuses it. *)
Definition arange (steps : Z) : list Q := map (fun k => inject_Z (Z.of_nat k)) (range steps).

Definition zeros (steps : Z) : py (list Q) :=
  if (steps <? 0)%Z then Throw (Builtin ValueError)
  else Return (np.zeros (Z.to_nat steps)).

(** [SaltoRana(a, r0, v0, t0, dt=0.01, steps=100, **kwargs)]. *)
Definition SaltoRana (a : Q -> Q -> Q) (r0 v0 t0 dt : Q) (steps : Z)
  : py (list Q * list Q * list Q) :=
  let t := map (fun k => t0 + k * dt) (arange steps) in
  r <~ zeros steps ;;
  v <~ zeros steps ;;
  r <~ set_at r 0 r0 ;;
  v <~ set_at v 0 v0 ;;
  let a0 := a r0 t0 in
  st <~ for_each
         (fun n '(r, v, a0) =>
            vn <~ item v n ;;
            let vmedio := vn + (1 # 2) * dt * a0 in
            rn <~ item r n ;;
            r <~ set_at r (n + 1) (rn + dt * vmedio) ;;
            rn1 <~ item r (n + 1) ;;
            tn1 <~ item t (n + 1) ;;
            let a0 := a rn1 tn1 in
            v <~ set_at v (n + 1) (vmedio + (1 # 2) * dt * a0) ;;
            Return (r, v, a0))
         (range (steps - 1)) (r, v, a0) ;;
  Return (t, fst (fst st), snd (fst st)).

End segundo_orden.

(** * Vocabulary of the statements *)

(** ** Nodes *)

(** Strictly increasing: every element is below its successor. *)
Fixpoint increasing (l : list Q) : Prop :=
  match l with
  | a :: (b :: _) as t => a < b /\ increasing t
  | _ => True
  end.

(** The rightmost insertion point of [v] in [a]: the nodes before it are
    [<= v], the nodes from it on are [> v]. *)
Definition insertion_right (a : list Q) (v : Q) (r : nat) : Prop :=
  (r <= length a)%nat /\
  (forall k, (k < r)%nat -> nth k a 0 <= v) /\
  (forall k, (r <= k < length a)%nat -> v < nth k a 0).

(** [dx_i] and [dy_i]: the difference of two consecutive elements. *)
Definition delta (l : list Q) (i : nat) : Q := nth (S i) l 0 - nth i l 0.

(** ** Segment cubics *)

(** A polynomial is the list of its coefficients, constant term first, with
    its value at a point and its formal derivative. *)
Definition poly : Type := list Q.

Fixpoint peval (p : poly) (t : Q) : Q :=
  match p with
  | [] => 0
  | c :: p' => c + t * peval p' t
  end.

Fixpoint pderiv_from (n : nat) (p : poly) : poly :=
  match p with
  | [] => []
  | c :: p' => (inject_Z (Z.of_nat n) * c) :: pderiv_from (S n) p'
  end.

Definition pderiv (p : poly) : poly :=
  match p with
  | [] => []
  | _ :: p' => pderiv_from 1 p'
  end.

(** The cubic of segment [i] in the variable [x - x_i], from the stored
    arrays, and its value and first two derivatives at [x]. *)
Definition segment_poly (sp : CSpline.t) (i : nat) : poly :=
  [nth i (CSpline.yi sp) 0; nth i (CSpline.si sp) 0;
   nth i (CSpline.ai sp) 0; nth i (CSpline.bi sp) 0].

Definition segment (sp : CSpline.t) (i : nat) (x : Q) : Q :=
  peval (segment_poly sp i) (x - nth i (CSpline.xi sp) 0).

Definition segment' (sp : CSpline.t) (i : nat) (x : Q) : Q :=
  peval (pderiv (segment_poly sp i)) (x - nth i (CSpline.xi sp) 0).

Definition segment'' (sp : CSpline.t) (i : nat) (x : Q) : Q :=
  peval (pderiv (pderiv (segment_poly sp i))) (x - nth i (CSpline.xi sp) 0).

(** What [CSpline.__call__] computes for one element [q] of its argument:
    the clipped index, and the nested product of its last line. *)
Definition segment_index (sp : CSpline.t) (q : Q) : Z :=
  np.clip 0 (Z.of_nat (length (CSpline.xi sp)) - 2)
    (Z.of_nat (np.searchsorted_right (CSpline.xi sp) q) - 1).

Definition horner (sp : CSpline.t) (i : nat) (dx : Q) : Q :=
  nth i (CSpline.yi sp) 0
  + dx * (nth i (CSpline.si sp) 0
          + dx * (nth i (CSpline.ai sp) 0 + dx * nth i (CSpline.bi sp) 0)).

Definition eval_at (sp : CSpline.t) (q : Q) : Q :=
  let i := Z.to_nat (segment_index sp q) in
  horner sp i (q - nth i (CSpline.xi sp) 0).

(** The lengths of the arrays of a spline built from [N >= 2] nodes. *)
Definition well_formed (sp : CSpline.t) : Prop :=
  (2 <= length (CSpline.xi sp))%nat /\
  length (CSpline.yi sp) = length (CSpline.xi sp) /\
  length (CSpline.si sp) = length (CSpline.xi sp) /\
  length (CSpline.ai sp) = (length (CSpline.xi sp) - 1)%nat /\
  length (CSpline.bi sp) = (length (CSpline.xi sp) - 1)%nat.

(** ** The tridiagonal system *)

(** The three rows of [A] and the right-hand side [p] after the assignments
    of [CSpline_Clasica.assemble], in closed form: [rhs_slopes] is [3*dy/dx],
    [rhs_ends] is [p] once its last entry is set, [rhs] is the final [p]. *)
Definition super_row (x : list Q) : list Q :=
  let n := length x in
  np.splice 2 (n - 2) (np.slice 0 1 (np.diff x)) (np.put 1 1 (np.zeros n)).

Definition main_row (x : list Q) : list Q :=
  let n := length x in
  let dx := np.diff x in
  np.put (n - 1) 2
    (np.splice 1 (n - 2) (np.scale 2 (np.map2 Qplus (np.slice 0 1 dx) (np.slice 1 0 dx)))
       (np.put 0 2 (np.zeros n))).

Definition sub_row (x : list Q) : list Q :=
  let n := length x in
  np.splice 0 (n - 2) (np.slice 1 0 (np.diff x)) (np.put (n - 2) 1 (np.zeros n)).

Definition rhs_slopes (x y : list Q) : list Q :=
  np.map2 Qdiv (np.scale 3 (np.diff y)) (np.diff x).

Definition rhs_ends (x y : list Q) : list Q :=
  let n := length x in
  let p := np.splice 0 (n - 1) (rhs_slopes x y) (np.zeros n) in
  np.put (n - 1) (nth (n - 2) p 0) p.

Definition rhs (x y : list Q) : list Q :=
  let n := length x in
  let dx := np.diff x in
  let p := rhs_ends x y in
  np.splice 1 (n - 2)
    (np.map2 Qplus (np.map2 Qmult (np.slice 1 1 p) (np.slice 0 1 dx))
                   (np.map2 Qmult (np.slice 0 2 p) (np.slice 1 0 dx))) p.

(** The entry [a[i][j]] of the matrix that [A] stores: SciPy's layout is
    [A[u + i - j][j] == a[i][j]] with [u = 1]; outside the band it is 0. *)
Definition entry (A : CSpline_Clasica.banded) (i j : nat) : Q :=
  if (j =? i + 1)%nat then nth j (nth 0 A []) 0
  else if (j =? i)%nat then nth j (nth 1 A []) 0
  else if (i =? j + 1)%nat then nth j (nth 2 A []) 0
  else 0.

(** The sum of [f 0], ..., [f (n - 1)]. *)
Definition qsum (f : nat -> Q) (n : nat) : Q :=
  fold_right Qplus 0 (map f (seq 0 n)).

(** Row [i] of the product of the stored matrix with [s]. *)
Definition row_dot (A : CSpline_Clasica.banded) (s : list Q) (i : nat) : Q :=
  qsum (fun j => entry A i j * nth j s 0) (length s).

(** [s] is an exact solution of the system [A s = p]. *)
Definition solves (A : CSpline_Clasica.banded) (p s : list Q) : Prop :=
  length s = length p /\
  forall i, (i < length p)%nat -> row_dot A s i == nth i p 0.

(** The solver returns an exact solution of the system assembled for [x], [y]. *)
Definition exact_on (solve_banded : CSpline_Clasica.solver) (x y : list Q) : Prop :=
  exists A p s,
    CSpline_Clasica.assemble x y = Ok (A, p) /\
    solve_banded A p = Ok s /\ solves A p s.

(** The rows of the system, written out. *)
Definition tri_rows (x y s : list Q) : Prop :=
  let n := length x in
  2 * nth 0 s 0 + 1 * nth 1 s 0 == 3 * delta y 0 / delta x 0 /\
  (forall i, (i + 2 < n)%nat ->
     delta x (i + 1) * nth i s 0
     + 2 * (delta x i + delta x (i + 1)) * nth (i + 1) s 0
     + delta x i * nth (i + 2) s 0
     == 3 * (delta y i / delta x i * delta x (i + 1)
             + delta y (i + 1) / delta x (i + 1) * delta x i)) /\
  1 * nth (n - 2) s 0 + 2 * nth (n - 1) s 0
  == 3 * delta y (n - 2) / delta x (n - 2).

(** ** A reference solver *)

(** Modelled from the spec: the TridiagonalSolver of section 4.1, which stands
    for SciPy's [solve_banded] (not part of the repository).  Elimination
    without pivoting followed by back substitution; a zero pivot raises
    [LinAlgError], the spec's SingularSystem. *)
Module TridiagonalSolver.

(** One equation [a * s_(i-1) + b * s_i + c * s_(i+1) = d]. *)
Definition equation : Type := (Q * Q * Q * Q)%type.

Definition equations (A : CSpline_Clasica.banded) (p : list Q) : list equation :=
  map (fun i => (if (i =? 0)%nat then 0 else nth (i - 1) (nth 2 A []) 0,
                 nth i (nth 1 A []) 0,
                 nth (i + 1) (nth 0 A []) 0,
                 nth i p 0))
      (seq 0 (length p)).

Fixpoint eliminate (eqs : list equation) (c' d' : Q) : result (list (Q * Q)) :=
  match eqs with
  | [] => Ok []
  | (a, b, c, d) :: rest =>
      let pivot := b - a * c' in
      if Qeq_dec pivot 0 then Raise LinAlgError
      else
        let c1 := c / pivot in
        let d1 := (d - a * d') / pivot in
        t <- eliminate rest c1 d1 ;; Ok ((c1, d1) :: t)
  end.

Fixpoint substitute (cd : list (Q * Q)) : list Q :=
  match cd with
  | [] => []
  | (c', d') :: rest =>
      let s := substitute rest in (d' - c' * hd 0 s) :: s
  end.

Definition solve : CSpline_Clasica.solver :=
  fun A p => cd <- eliminate (equations A p) 0 0 ;; Ok (substitute cd).

End TridiagonalSolver.

(** ** Trajectories of the integrators *)

(** The numbers the loops store, as recurrences on the step index: [h n] is
    the step from time [tm n] to time [tm (n + 1)]. *)
Fixpoint euler_at (f : Q -> Q -> Q) (r0 : Q) (h tm : nat -> Q) (n : nat) : Q :=
  match n with
  | O => r0
  | S m => let r := euler_at f r0 h tm m in r + h m * f r (tm m)
  end.

Fixpoint rk4_at (f : Q -> Q -> Q) (r0 : Q) (h tm : nat -> Q) (n : nat) : Q :=
  match n with
  | O => r0
  | S m =>
      let r := rk4_at f r0 h tm m in
      let K1 := h m * f r (tm m) in
      let K2 := h m * f (r + (1 # 2) * K1) (tm m + (1 # 2) * h m) in
      let K3 := h m * f (r + (1 # 2) * K2) (tm m + (1 # 2) * h m) in
      let K4 := h m * f (r + K3) (tm m + h m) in
      r + (K1 + 2 * K2 + 2 * K3 + K4) / 6
  end.

Fixpoint leap_at (a : Q -> Q -> Q) (r0 v0 : Q) (h tm : nat -> Q) (n : nat) : Q * Q :=
  match n with
  | O => (r0, v0)
  | S m =>
      let rv := leap_at a r0 v0 h tm m in
      let vmedio := snd rv + (1 # 2) * h m * a (fst rv) (tm m) in
      let r1 := fst rv + h m * vmedio in
      (r1, vmedio + (1 # 2) * h m * a r1 (tm (S m)))
  end.

(** An array whose first [k] entries are [F 0], ..., [F (k - 1)] and whose
    other entries are still zero. *)
Definition filled (F : nat -> Q) (k n : nat) : list Q :=
  map F (seq 0 k) ++ repeat 0 (n - k).

Definition step_of (t : list Q) (n : nat) : Q := nth n (np.diff t) 0.
Definition time_of (t : list Q) (n : nat) : Q := nth n t 0.

(** The times of [segundo_orden.SaltoRana]: [t0] itself at the start, then
    the entries of the array [t]. *)
Definition uniform_times (t0 dt : Q) (steps : Z) : list Q :=
  map (fun k => t0 + k * dt) (segundo_orden.arange steps).

Definition uniform_time (t0 dt : Q) (steps : Z) (n : nat) : Q :=
  match n with
  | O => t0
  | S _ => nth n (uniform_times t0 dt steps) 0
  end.

(** The arguments of one call all have the shape [shape]. *)
Definition same_shape (shape : list nat) (args : list (np.ndarray Q)) : Prop :=
  args <> [] /\
  forall r0, In r0 args ->
    np.shape r0 = shape /\ length (np.data r0) = EcuacionesDiferencialesOrdinarias.prod_shape shape.

(** The array [_condiciones_iniciales] builds for [r0]: [steps] rows, the
    first one [r0], the others zero. *)
Definition initial_array (steps : nat) (r0 : np.ndarray Q) : np.ndarray Q :=
  np.mk_ndarray (steps :: np.shape r0)
    (np.data r0 ++ repeat 0 ((steps - 1) * length (np.data r0))).

(** The EcuacionesDiferencialesOrdinarias.callback gives equal numbers for equal arguments. *)
Definition respects_eq (a : Q -> Q -> Q) : Prop :=
  forall r r' s s', r == r' -> s == s' -> a r s == a r' s'.

(** * Properties *)

(** ** Lists and the NumPy operations *)

Section ListFacts.

Context {A : Type}.

Lemma put_length (j : nat) (v : A) (a : list A) :
  (j < length a)%nat -> length (np.put j v a) = length a.
Proof.
  intros H. unfold np.put.
  rewrite length_app, length_firstn. cbn [length]. rewrite length_skipn. lia.
Qed.

Lemma put_nth (j k : nat) (v d : A) (a : list A) :
  (j < length a)%nat ->
  nth k (np.put j v a) d = if Nat.eqb k j then v else nth k a d.
Proof.
  intros H. unfold np.put.
  destruct (Nat.eqb_spec k j) as [->|Hne].
  - rewrite app_nth2; rewrite length_firstn; [|lia].
    replace (j - Nat.min j (length a))%nat with 0%nat by lia. reflexivity.
  - destruct (Nat.lt_ge_cases k j) as [Hlt|Hge].
    + rewrite app_nth1 by (rewrite length_firstn; lia).
      rewrite nth_firstn. destruct (Nat.ltb_spec k j); [reflexivity|lia].
    + rewrite app_nth2; rewrite length_firstn; [|lia].
      replace (Nat.min j (length a)) with j by lia.
      destruct (k - j)%nat as [|m] eqn:E; [lia|].
      cbn [nth]. rewrite nth_skipn. f_equal. lia.
Qed.

Lemma splice_length (s k : nat) (v a : list A) :
  length v = k -> (s + k <= length a)%nat -> length (np.splice s k v a) = length a.
Proof.
  intros Hv H. unfold np.splice.
  rewrite !length_app, length_firstn, length_skipn. lia.
Qed.

Lemma splice_nth (s k j : nat) (v a : list A) (d : A) :
  length v = k -> (s + k <= length a)%nat ->
  nth j (np.splice s k v a) d =
    if (j <? s)%nat then nth j a d
    else if (j <? s + k)%nat then nth (j - s) v d
    else nth j a d.
Proof.
  intros Hv H. unfold np.splice.
  destruct (Nat.ltb_spec j s) as [Hlt|Hge].
  - rewrite app_nth1 by (rewrite length_firstn; lia).
    rewrite nth_firstn. destruct (Nat.ltb_spec j s); [reflexivity|lia].
  - rewrite app_nth2; rewrite length_firstn; [|lia].
    replace (Nat.min s (length a)) with s by lia.
    destruct (Nat.ltb_spec j (s + k)) as [Hlt|Hge2].
    + rewrite app_nth1 by lia. reflexivity.
    + rewrite app_nth2 by lia. rewrite nth_skipn. f_equal. lia.
Qed.

Lemma map2_length {B C : Type} (f : A -> B -> C) (a : list A) (b : list B) :
  length a = length b -> length (np.map2 f a b) = length a.
Proof.
  revert b. induction a as [|u a IH]; intros [|v b] H; cbn in *; try lia.
  rewrite IH; lia.
Qed.

Lemma map2_nth {B C : Type} (f : A -> B -> C) (a : list A) (b : list B)
      (i : nat) (da : A) (db : B) (dc : C) :
  length a = length b -> (i < length a)%nat ->
  nth i (np.map2 f a b) dc = f (nth i a da) (nth i b db).
Proof.
  revert b i. induction a as [|u a IH]; intros [|v b] i H Hi; cbn in *; try lia.
  destruct i as [|i]; [reflexivity|]. apply IH; lia.
Qed.

Lemma mapM_ok {B : Type} (f : A -> result B) (g : A -> B) (l : list A) :
  (forall a, In a l -> f a = Ok (g a)) -> mapM f l = Ok (map g l).
Proof.
  induction l as [|a l IH]; intros H; cbn; [reflexivity|].
  rewrite (H a) by (left; reflexivity). cbn.
  rewrite IH by (intros; apply H; right; assumption). reflexivity.
Qed.

End ListFacts.

Lemma diff_length (a : list Q) : length (np.diff a) = (length a - 1)%nat.
Proof.
  induction a as [|u [|v a] IH]; cbn [np.diff length] in *; lia.
Qed.

Lemma diff_nth (a : list Q) (i : nat) :
  (i + 1 < length a)%nat -> nth i (np.diff a) 0 = nth (S i) a 0 - nth i a 0.
Proof.
  revert i. induction a as [|u [|v a] IH]; intros i H; cbn [length] in H; try lia.
  destruct i as [|i]; [reflexivity|].
  change (np.diff (u :: v :: a)) with ((v - u) :: np.diff (v :: a)).
  cbn [nth]. rewrite IH by (cbn [length]; lia). reflexivity.
Qed.

Lemma slice_length (s d : nat) (a : list Q) :
  length (np.slice s d a) = (length a - d - s)%nat.
Proof. unfold np.slice. rewrite length_firstn, length_skipn. lia. Qed.

Lemma slice_nth (s d i : nat) (a : list Q) :
  (i < length a - d - s)%nat -> nth i (np.slice s d a) 0 = nth (s + i) a 0.
Proof.
  intros H. unfold np.slice. rewrite nth_firstn.
  destruct (Nat.ltb_spec i (length a - d - s)); [|lia]. apply nth_skipn.
Qed.

Lemma scale_length (c : Q) (a : list Q) : length (np.scale c a) = length a.
Proof. apply length_map. Qed.

Lemma scale_nth (c : Q) (a : list Q) (i : nat) :
  (i < length a)%nat -> nth i (np.scale c a) 0 = c * nth i a 0.
Proof.
  intros H. unfold np.scale.
  rewrite (nth_indep _ 0 (c * 0)) by (rewrite length_map; exact H).
  apply map_nth.
Qed.

Lemma square_length (a : list Q) : length (np.square a) = length a.
Proof. apply length_map. Qed.

Lemma square_nth (a : list Q) (i : nat) :
  (i < length a)%nat -> nth i (np.square a) 0 = nth i a 0 ^ 2.
Proof.
  intros H. unfold np.square.
  rewrite (nth_indep _ 0 (0 ^ 2)) by (rewrite length_map; exact H).
  apply (map_nth (fun u => u ^ 2)).
Qed.

Lemma broadcast2_same (f : Q -> Q -> Q) (a b : list Q) :
  length a = length b -> np.broadcast2 f a b = Ok (np.map2 f a b).
Proof. intros H. unfold np.broadcast2. rewrite H, Nat.eqb_refl. reflexivity. Qed.

Lemma norm_index_nonneg (n : nat) (i : Z) :
  (0 <= i < Z.of_nat n)%Z -> np.norm_index n i = Ok (Z.to_nat i).
Proof.
  intros H. unfold np.norm_index.
  destruct (Z.leb_spec 0 i); [|lia]. destruct (Z.ltb_spec i (Z.of_nat n)); [|lia].
  reflexivity.
Qed.

Lemma norm_index_neg (n : nat) (i : Z) :
  (- Z.of_nat n <= i < 0)%Z -> np.norm_index n i = Ok (Z.to_nat (Z.of_nat n + i)).
Proof.
  intros H. unfold np.norm_index.
  destruct (Z.leb_spec 0 i); [lia|]. cbn [andb].
  destruct (Z.leb_spec (- Z.of_nat n) i); [|lia]. destruct (Z.ltb_spec i 0); [|lia].
  reflexivity.
Qed.

Lemma set_slice_same (s d : nat) (a v : list Q) :
  length v = (length a - d - s)%nat ->
  np.set_slice s d a v = Ok (np.splice s (length a - d - s) v a).
Proof. intros H. unfold np.set_slice. rewrite H, Nat.eqb_refl. reflexivity. Qed.

Lemma zeros_length (n : nat) : length (np.zeros n) = n.
Proof. apply repeat_length. Qed.

(** Lengths of arrays built from the operations above, down to arithmetic;
    [solve_len_with H] also rewrites with the length equation [H]. *)
Ltac solve_len :=
  repeat first
    [ rewrite zeros_length | rewrite scale_length | rewrite square_length
    | rewrite slice_length | rewrite diff_length
    | rewrite map2_length by solve_len
    | rewrite put_length by solve_len
    | rewrite splice_length by solve_len ];
  lia.

Ltac solve_len_with H :=
  repeat first
    [ rewrite H | rewrite zeros_length | rewrite scale_length | rewrite square_length
    | rewrite slice_length | rewrite diff_length | rewrite map2_length
    | rewrite put_length | rewrite splice_length ];
  lia.

Lemma nd_map_id (x : np.ndarray Q) : np.nd_map (fun q => q) x = x.
Proof. destruct x as [sh d]. unfold np.nd_map. cbn. rewrite map_id. reflexivity. Qed.

Lemma nd_map_map {A B C : Type} (f : A -> B) (g : B -> C) (x : np.ndarray A) :
  np.nd_map g (np.nd_map f x) = np.nd_map (fun q => g (f q)) x.
Proof. unfold np.nd_map. cbn. rewrite map_map. reflexivity. Qed.

Lemma map2_maps {A B C D : Type} (f : B -> C -> D) (g : A -> B) (h : A -> C) (l : list A) :
  np.map2 f (map g l) (map h l) = map (fun q => f (g q) (h q)) l.
Proof. induction l as [|a l IH]; cbn; [reflexivity|]. rewrite IH. reflexivity. Qed.

Lemma nd_map2_maps (f : Q -> Q -> Q) (g h : Q -> Q) (x : np.ndarray Q) :
  np.nd_map2 f (np.nd_map g x) (np.nd_map h x) = Ok (np.nd_map (fun q => f (g q) (h q)) x).
Proof.
  unfold np.nd_map2, np.nd_map. cbn [np.shape np.data].
  destruct (list_eq_dec Nat.eq_dec (np.shape x) (np.shape x)) as [_|Hne];
    [|exfalso; apply Hne; reflexivity].
  rewrite !length_map, Nat.eqb_refl, map2_maps. reflexivity.
Qed.

Lemma take_map (a : list Q) (idx : Q -> Z) (x : np.ndarray Q) :
  (forall q, 0 <= idx q < Z.of_nat (length a))%Z ->
  np.take a (np.nd_map idx x) = Ok (np.nd_map (fun q => nth (Z.to_nat (idx q)) a 0) x).
Proof.
  intros H. unfold np.take, np.nd_map. cbn [np.shape np.data].
  rewrite (mapM_ok _ (fun i => nth (Z.to_nat i) a 0)).
  - cbn. rewrite map_map. reflexivity.
  - intros i Hi. apply in_map_iff in Hi. destruct Hi as [q [<- _]].
    unfold np.get_item. rewrite norm_index_nonneg by apply H. reflexivity.
Qed.

(** ** Strictly increasing nodes and the bisection *)

Lemma increasing_nth (l : list Q) :
  increasing l ->
  forall i j, (i < j < length l)%nat -> nth i l 0 < nth j l 0.
Proof.
  induction l as [|a l IH]; intros Hinc i j Hij; [cbn in Hij; lia|].
  assert (Htail : increasing l) by (destruct l; [exact I | apply Hinc]).
  assert (Hhead : forall k, (k < length l)%nat -> a < nth k l 0).
  { intros k. induction k as [|k IHk]; intros Hk.
    - destruct l as [|b l]; [cbn in Hk; lia|]. apply Hinc.
    - apply Qlt_trans with (nth k l 0); [apply IHk; lia|].
      apply IH; [exact Htail|lia]. }
  cbn [length] in Hij.
  destruct j as [|j]; [lia|]. destruct i as [|i]; cbn [nth].
  - apply Hhead. lia.
  - apply IH; [exact Htail|lia].
Qed.

Lemma insertion_right_unique (a : list Q) (v : Q) (r r' : nat) :
  insertion_right a v r -> insertion_right a v r' -> r = r'.
Proof.
  intros (Hr & Hlo & Hhi) (Hr' & Hlo' & Hhi').
  destruct (Nat.lt_trichotomy r r') as [H|[H|H]]; [exfalso| exact H |exfalso].
  - specialize (Hlo' r H). specialize (Hhi r ltac:(lia)). lra.
  - specialize (Hlo r' H). specialize (Hhi' r' ltac:(lia)). lra.
Qed.

Lemma bisect_right_spec (a : list Q) (v : Q) :
  increasing a ->
  forall fuel lo hi,
    (lo <= hi <= length a)%nat -> (hi - lo <= fuel)%nat ->
    (forall k, (k < lo)%nat -> nth k a 0 <= v) ->
    (forall k, (hi <= k < length a)%nat -> v < nth k a 0) ->
    insertion_right a v (np.bisect_right fuel a v lo hi).
Proof.
  intros Hinc. pose proof (increasing_nth a Hinc) as Hmono.
  induction fuel as [|fuel IH]; intros lo hi Hb Hf Hlo Hhi; cbn [np.bisect_right].
  - assert (lo = hi) by lia. subst hi. repeat split; [lia|exact Hlo|exact Hhi].
  - destruct (Nat.ltb_spec lo hi) as [Hlt|Hge].
    + assert (Hmid : ((hi - lo) / 2 < hi - lo)%nat) by (apply Nat.div_lt; lia).
      set (mid := (lo + (hi - lo) / 2)%nat) in *.
      assert (lo <= mid < hi)%nat by (unfold mid; lia).
      destruct (Qlt_le_dec v (nth mid a 0)) as [Hv|Hv].
      * apply IH; [lia|lia|exact Hlo|].
        intros k Hk. destruct (Nat.eq_dec k mid) as [->|Hne]; [exact Hv|].
        apply Qlt_trans with (nth mid a 0); [exact Hv|apply Hmono; lia].
      * apply IH; [lia|lia| |exact Hhi].
        intros k Hk. destruct (Nat.eq_dec k mid) as [->|Hne]; [exact Hv|].
        apply Qle_trans with (nth mid a 0); [|exact Hv].
        apply Qlt_le_weak, Hmono. lia.
    + assert (lo = hi) by lia. subst hi. repeat split; [lia|exact Hlo|exact Hhi].
Qed.

Lemma searchsorted_right_spec (a : list Q) (v : Q) :
  increasing a -> insertion_right a v (np.searchsorted_right a v).
Proof.
  intros Hinc. unfold np.searchsorted_right.
  apply bisect_right_spec; [exact Hinc|lia|lia| |]; intros k Hk; lia.
Qed.

Lemma searchsorted_right_node (a : list Q) (i : nat) :
  increasing a -> (i < length a)%nat ->
  np.searchsorted_right a (nth i a 0) = S i.
Proof.
  intros Hinc Hi. pose proof (increasing_nth a Hinc) as Hmono.
  apply (insertion_right_unique a (nth i a 0)).
  - apply searchsorted_right_spec, Hinc.
  - repeat split; [lia| |].
    + intros k Hk. destruct (Nat.eq_dec k i) as [->|Hne]; [apply Qle_refl|].
      apply Qlt_le_weak, Hmono. lia.
    + intros k Hk. apply Hmono. lia.
Qed.

(** ** Segment cubics *)

Lemma init_ok (x y s : list Q) :
  length y = length x -> length s = length x ->
  exists a b,
    CSpline.__init__ x y s = Ok (CSpline.mk x y s a b) /\
    length a = (length x - 1)%nat /\ length b = (length x - 1)%nat /\
    forall i, (i < length x - 1)%nat ->
      nth i a 0 = (3 * delta y i / delta x i - nth (S i) s 0 - 2 * nth i s 0) / delta x i /\
      nth i b 0 = (nth (S i) s 0 + nth i s 0 - 2 * delta y i / delta x i) / delta x i ^ 2.
Proof.
  intros Hy Hs. unfold CSpline.__init__, np.div, np.sub, np.add.
  repeat (rewrite broadcast2_same by solve_len; cbn [bind]).
  eexists. eexists. split; [reflexivity|].
  split; [solve_len|]. split; [solve_len|].
  intros i Hi. unfold delta. split.
  - rewrite (map2_nth _ _ _ _ 0 0) by solve_len.
    rewrite (map2_nth _ _ _ _ 0 0) by solve_len.
    rewrite (map2_nth _ _ _ _ 0 0) by solve_len.
    rewrite (map2_nth _ _ _ _ 0 0) by solve_len.
    rewrite !scale_nth by solve_len.
    rewrite !slice_nth by lia.
    rewrite !diff_nth by lia. reflexivity.
  - rewrite (map2_nth _ _ _ _ 0 0) by solve_len.
    rewrite (map2_nth _ _ _ _ 0 0) by solve_len.
    rewrite (map2_nth _ _ _ _ 0 0) by solve_len.
    rewrite (map2_nth _ _ _ _ 0 0) by solve_len.
    rewrite square_nth by solve_len.
    rewrite !scale_nth by solve_len.
    rewrite !slice_nth by lia.
    rewrite !diff_nth by lia. reflexivity.
Qed.

Lemma init_well_formed (x y s : list Q) (sp : CSpline.t) :
  (2 <= length x)%nat -> length y = length x -> length s = length x ->
  CSpline.__init__ x y s = Ok sp -> well_formed sp.
Proof.
  intros HN Hy Hs H.
  destruct (init_ok x y s Hy Hs) as (a & b & E & Ha & Hb & _).
  rewrite E in H. injection H as <-. unfold well_formed. cbn. auto.
Qed.

Lemma segment_index_range (sp : CSpline.t) (q : Q) :
  (2 <= length (CSpline.xi sp))%nat ->
  (0 <= segment_index sp q <= Z.of_nat (length (CSpline.xi sp)) - 2)%Z.
Proof. intros H. unfold segment_index, np.clip. lia. Qed.

Lemma call_ok (sp : CSpline.t) (x : np.ndarray Q) :
  well_formed sp -> CSpline.__call__ sp x = Ok (np.nd_map (eval_at sp) x).
Proof.
  intros (HN & Hy & Hs & Ha & Hb). unfold CSpline.__call__.
  rewrite nd_map_map. fold (segment_index sp).
  pose proof (segment_index_range sp) as R.
  rewrite !take_map by (intros q; specialize (R q HN); lia).
  cbn [bind].
  rewrite <- (nd_map_id x) at 1. rewrite nd_map2_maps. cbn [bind].
  repeat (rewrite nd_map2_maps; cbn [bind]).
  reflexivity.
Qed.

Lemma increasing_delta_pos (x : list Q) (i : nat) :
  increasing x -> (i + 1 < length x)%nat -> 0 < delta x i.
Proof.
  intros Hinc Hi. unfold delta.
  pose proof (increasing_nth x Hinc i (S i) ltac:(lia)). lra.
Qed.

Lemma horner_segment (sp : CSpline.t) (x : list Q) (i : nat) (q : Q) :
  CSpline.xi sp = x -> horner sp i (q - nth i x 0) == segment sp i q.
Proof. intros <-. unfold horner, segment, segment_poly. cbn [peval]. ring. Qed.

(** The four endpoint conditions of a segment, from the stored coefficients. *)
Lemma segment_hermite (x y s : list Q) (sp : CSpline.t) (i : nat) :
  increasing x -> length y = length x -> length s = length x ->
  CSpline.__init__ x y s = Ok sp -> (i + 1 < length x)%nat ->
  segment sp i (nth i x 0) == nth i y 0 /\
  segment' sp i (nth i x 0) == nth i s 0 /\
  segment sp i (nth (S i) x 0) == nth (S i) y 0 /\
  segment' sp i (nth (S i) x 0) == nth (S i) s 0.
Proof.
  intros Hinc Hy Hs Hsp Hi.
  destruct (init_ok x y s Hy Hs) as (a & b & E & _ & _ & Hab).
  rewrite E in Hsp. injection Hsp as <-.
  destruct (Hab i ltac:(lia)) as [Ea Eb].
  pose proof (increasing_delta_pos x i Hinc Hi) as Hd.
  unfold segment, segment', segment_poly, pderiv.
  cbn [CSpline.xi CSpline.yi CSpline.si CSpline.ai CSpline.bi pderiv_from peval].
  rewrite Ea, Eb. fold (delta x i).
  set (d := delta x i) in *. unfold delta. set (y1 := nth (S i) y 0).
  set (y0 := nth i y 0). set (s1 := nth (S i) s 0). set (s0 := nth i s 0).
  set (x0 := nth i x 0).
  change (inject_Z (Z.of_nat 1)) with 1. change (inject_Z (Z.of_nat 2)) with 2.
  change (inject_Z (Z.of_nat 3)) with 3.
  assert (Hd0 : ~ d == 0) by lra.
  repeat split; try ring; field; exact Hd0.
Qed.

(** ** The tridiagonal system of [CSpline_Clasica] *)

Lemma get_item_at {A : Type} (d : A) (a : list A) (i : Z) (j : nat) :
  (j < length a)%nat ->
  (Z.of_nat j = i \/ Z.of_nat j = Z.of_nat (length a) + i)%Z ->
  np.get_item d a i = Ok (nth j a d).
Proof.
  intros Hj [H|H]; unfold np.get_item.
  - rewrite norm_index_nonneg by lia. cbn. f_equal. f_equal. lia.
  - rewrite norm_index_neg by lia. cbn. f_equal. f_equal. lia.
Qed.

Lemma set_item_at {A : Type} (a : list A) (i : Z) (j : nat) (v : A) :
  (j < length a)%nat ->
  (Z.of_nat j = i \/ Z.of_nat j = Z.of_nat (length a) + i)%Z ->
  np.set_item a i v = Ok (np.put j v a).
Proof.
  intros Hj [H|H]; unfold np.set_item.
  - rewrite norm_index_nonneg by lia. cbn. f_equal. f_equal. lia.
  - rewrite norm_index_neg by lia. cbn. f_equal. f_equal. lia.
Qed.

Lemma set_slice_at (s d k : nat) (a v : list Q) :
  (length a - d - s)%nat = k -> length v = k ->
  np.set_slice s d a v = Ok (np.splice s k v a).
Proof. intros <- H. apply set_slice_same, H. Qed.

Lemma on_row_0 (f : list Q -> result (list Q)) (r0 r1 r2 r0' : list Q) :
  f r0 = Ok r0' -> np.on_row 0 f [r0; r1; r2] = Ok [r0'; r1; r2].
Proof.
  intros H. unfold np.on_row.
  cbv [np.get_item np.set_item np.norm_index np.put bind length nth firstn skipn app
       Z.of_nat Z.leb Z.ltb Z.compare Pos.compare Pos.compare_cont Pos.of_succ_nat Pos.succ
       Z.opp Z.to_nat Pos.to_nat Pos.iter_op Nat.add andb Z.add].
  rewrite H. reflexivity.
Qed.

Lemma on_row_1 (f : list Q -> result (list Q)) (r0 r1 r2 r1' : list Q) :
  f r1 = Ok r1' -> np.on_row 1 f [r0; r1; r2] = Ok [r0; r1'; r2].
Proof.
  intros H. unfold np.on_row.
  cbv [np.get_item np.set_item np.norm_index np.put bind length nth firstn skipn app
       Z.of_nat Z.leb Z.ltb Z.compare Pos.compare Pos.compare_cont Pos.of_succ_nat Pos.succ
       Z.opp Z.to_nat Pos.to_nat Pos.iter_op Nat.add andb Z.add].
  rewrite H. reflexivity.
Qed.

Lemma on_row_2 (f : list Q -> result (list Q)) (r0 r1 r2 r2' : list Q) :
  f r2 = Ok r2' -> np.on_row 2 f [r0; r1; r2] = Ok [r0; r1; r2'].
Proof.
  intros H. unfold np.on_row.
  cbv [np.get_item np.set_item np.norm_index np.put bind length nth firstn skipn app
       Z.of_nat Z.leb Z.ltb Z.compare Pos.compare Pos.compare_cont Pos.of_succ_nat Pos.succ
       Z.opp Z.to_nat Pos.to_nat Pos.iter_op Nat.add andb Z.add].
  rewrite H. reflexivity.
Qed.

Lemma rhs_slopes_length (x y : list Q) :
  length y = length x -> length (rhs_slopes x y) = (length x - 1)%nat.
Proof. intros H. unfold rhs_slopes. solve_len. Qed.

Lemma rhs_ends_length (x y : list Q) :
  (2 <= length x)%nat -> length y = length x -> length (rhs_ends x y) = length x.
Proof.
  intros HN H. unfold rhs_ends. cbv zeta.
  pose proof (rhs_slopes_length x y H).
  rewrite put_length; rewrite splice_length; rewrite ?zeros_length; lia.
Qed.

Lemma assemble_ok (x y : list Q) :
  (2 <= length x)%nat -> length y = length x ->
  CSpline_Clasica.assemble x y = Ok ([super_row x; main_row x; sub_row x], rhs x y).
Proof.
  intros HN Hy. unfold CSpline_Clasica.assemble.
  replace (length (np.diff x) + 1)%nat with (length x) by (rewrite diff_length; lia).
  change (np.zeros2 3 (length x)) with [np.zeros (length x); np.zeros (length x); np.zeros (length x)].
  pose proof (rhs_slopes_length x y Hy) as Hm.
  pose proof (rhs_ends_length x y HN Hy) as He.
  rewrite (on_row_0 _ _ _ _ (np.put 1 1 (np.zeros (length x))))
    by (apply set_item_at; solve_len).
  cbn [bind].
  rewrite (on_row_0 _ _ _ _ (super_row x))
    by (apply set_slice_at; solve_len).
  cbn [bind].
  rewrite (on_row_1 _ _ _ _ (np.put 0 2 (np.zeros (length x))))
    by (apply set_item_at; solve_len).
  cbn [bind]. unfold np.add.
  rewrite broadcast2_same by solve_len. cbn [bind].
  rewrite (on_row_1 _ _ _ _ (np.splice 1 (length x - 2)
             (np.scale 2 (np.map2 Qplus (np.slice 0 1 (np.diff x)) (np.slice 1 0 (np.diff x))))
             (np.put 0 2 (np.zeros (length x)))))
    by (apply set_slice_at; solve_len).
  cbn [bind].
  rewrite (on_row_1 _ _ _ _ (main_row x))
    by (apply (set_item_at _ _ (length x - 1)); solve_len).
  cbn [bind].
  rewrite (on_row_2 _ _ _ _ (np.put (length x - 2) 1 (np.zeros (length x))))
    by (apply (set_item_at _ _ (length x - 2)); solve_len).
  cbn [bind].
  rewrite (on_row_2 _ _ _ _ (sub_row x))
    by (apply set_slice_at; solve_len).
  cbn [bind]. unfold np.div.
  rewrite broadcast2_same by solve_len. cbn [bind]. fold (rhs_slopes x y).
  rewrite (set_slice_at 0 1 (length x - 1)) by (rewrite ?zeros_length; lia).
  cbn [bind].
  rewrite (get_item_at _ _ _ (length x - 2))
    by (rewrite splice_length; rewrite ?zeros_length; lia).
  cbn [bind].
  rewrite (set_item_at _ _ (length x - 1))
    by (rewrite splice_length; rewrite ?zeros_length; lia).
  cbn [bind]. fold (rhs_ends x y). unfold np.mul.
  rewrite broadcast2_same by solve_len_with He.
  cbn [bind].
  rewrite broadcast2_same by solve_len_with He.
  cbn [bind].
  rewrite broadcast2_same by solve_len_with He.
  cbn [bind].
  rewrite (set_slice_at 1 1 (length x - 2)) by solve_len_with He.
  reflexivity.
Qed.

Ltac nat_if :=
  repeat match goal with
    | |- context [Nat.ltb ?a ?b] => destruct (Nat.ltb_spec a b); try lia
    | |- context [Nat.eqb ?a ?b] => destruct (Nat.eqb_spec a b); try lia
    end.

Lemma nth_eq_index {A : Type} (l : list A) (d : A) (i j : nat) :
  i = j -> nth i l d = nth j l d.
Proof. intros ->. reflexivity. Qed.

Lemma diff_delta (x : list Q) (i j : nat) :
  i = j -> (j + 1 < length x)%nat -> nth i (np.diff x) 0 = delta x j.
Proof. intros -> H. apply diff_nth, H. Qed.

Lemma super_row_length (x : list Q) :
  (2 <= length x)%nat -> length (super_row x) = length x.
Proof. intros H. unfold super_row. cbv zeta. solve_len. Qed.

Lemma super_row_1 (x : list Q) :
  (2 <= length x)%nat -> nth 1 (super_row x) 0 = 1.
Proof.
  intros H. unfold super_row. cbv zeta.
  rewrite splice_nth by solve_len. nat_if.
  rewrite put_nth by solve_len. reflexivity.
Qed.

Lemma super_row_inner (x : list Q) (i : nat) :
  (i + 2 < length x)%nat -> nth (i + 2) (super_row x) 0 = delta x i.
Proof.
  intros H. unfold super_row. cbv zeta.
  rewrite splice_nth by solve_len. nat_if.
  rewrite slice_nth by solve_len. apply diff_delta; lia.
Qed.

Lemma main_row_length (x : list Q) :
  (2 <= length x)%nat -> length (main_row x) = length x.
Proof. intros H. unfold main_row. cbv zeta. solve_len. Qed.

Lemma main_row_0 (x : list Q) :
  (2 <= length x)%nat -> nth 0 (main_row x) 0 = 2.
Proof.
  intros H. unfold main_row. cbv zeta.
  rewrite put_nth by solve_len. nat_if.
  rewrite splice_nth by solve_len. nat_if.
  rewrite put_nth by solve_len. reflexivity.
Qed.

Lemma main_row_last (x : list Q) :
  (2 <= length x)%nat -> nth (length x - 1) (main_row x) 0 = 2.
Proof.
  intros H. unfold main_row. cbv zeta.
  rewrite put_nth by solve_len. rewrite Nat.eqb_refl. reflexivity.
Qed.

Lemma main_row_inner (x : list Q) (i : nat) :
  (i + 2 < length x)%nat ->
  nth (i + 1) (main_row x) 0 = 2 * (delta x i + delta x (i + 1)).
Proof.
  intros H. unfold main_row. cbv zeta.
  rewrite put_nth by solve_len. nat_if.
  rewrite splice_nth by solve_len. nat_if.
  rewrite scale_nth by solve_len.
  rewrite (map2_nth _ _ _ _ 0 0) by solve_len.
  rewrite !slice_nth by solve_len.
  rewrite (diff_delta x _ i) by lia.
  rewrite (diff_delta x _ (i + 1)) by lia. reflexivity.
Qed.

Lemma sub_row_length (x : list Q) :
  (2 <= length x)%nat -> length (sub_row x) = length x.
Proof. intros H. unfold sub_row. cbv zeta. solve_len. Qed.

Lemma sub_row_last (x : list Q) :
  (2 <= length x)%nat -> nth (length x - 2) (sub_row x) 0 = 1.
Proof.
  intros H. unfold sub_row. cbv zeta.
  rewrite splice_nth by solve_len. nat_if.
  rewrite put_nth by solve_len. rewrite Nat.eqb_refl. reflexivity.
Qed.

Lemma sub_row_inner (x : list Q) (i : nat) :
  (i + 2 < length x)%nat -> nth i (sub_row x) 0 = delta x (i + 1).
Proof.
  intros H. unfold sub_row. cbv zeta.
  rewrite splice_nth by solve_len. nat_if.
  rewrite slice_nth by solve_len. apply diff_delta; lia.
Qed.

Lemma rhs_slopes_nth (x y : list Q) (i : nat) :
  length y = length x -> (i + 1 < length x)%nat ->
  nth i (rhs_slopes x y) 0 = 3 * delta y i / delta x i.
Proof.
  intros Hy H. unfold rhs_slopes.
  rewrite (map2_nth _ _ _ _ 0 0) by solve_len.
  rewrite scale_nth by solve_len.
  rewrite (diff_delta x _ i) by lia.
  rewrite (diff_delta y _ i) by lia. reflexivity.
Qed.

Lemma rhs_ends_inner (x y : list Q) (j : nat) :
  length y = length x -> (j + 1 < length x)%nat ->
  nth j (rhs_ends x y) 0 = 3 * delta y j / delta x j.
Proof.
  intros Hy H. unfold rhs_ends. cbv zeta.
  pose proof (rhs_slopes_length x y Hy) as Hm.
  rewrite put_nth by solve_len_with Hm. nat_if.
  rewrite splice_nth by solve_len_with Hm. nat_if.
  rewrite (nth_eq_index _ _ _ j) by lia. apply rhs_slopes_nth; assumption.
Qed.

Lemma rhs_ends_last (x y : list Q) :
  length y = length x -> (2 <= length x)%nat ->
  nth (length x - 1) (rhs_ends x y) 0
  = 3 * delta y (length x - 2) / delta x (length x - 2).
Proof.
  intros Hy H. unfold rhs_ends. cbv zeta.
  pose proof (rhs_slopes_length x y Hy) as Hm.
  rewrite put_nth by solve_len_with Hm. rewrite Nat.eqb_refl.
  rewrite splice_nth by solve_len_with Hm. nat_if.
  rewrite (nth_eq_index _ _ _ (length x - 2)) by lia.
  apply rhs_slopes_nth; [assumption|lia].
Qed.

Lemma rhs_length (x y : list Q) :
  (2 <= length x)%nat -> length y = length x -> length (rhs x y) = length x.
Proof.
  intros HN Hy. unfold rhs. cbv zeta.
  pose proof (rhs_ends_length x y HN Hy) as He. solve_len_with He.
Qed.

Lemma rhs_0 (x y : list Q) :
  (2 <= length x)%nat -> length y = length x ->
  nth 0 (rhs x y) 0 = 3 * delta y 0 / delta x 0.
Proof.
  intros HN Hy. unfold rhs. cbv zeta.
  pose proof (rhs_ends_length x y HN Hy) as He.
  rewrite splice_nth by solve_len_with He. nat_if.
  apply rhs_ends_inner; [assumption|lia].
Qed.

Lemma rhs_last (x y : list Q) :
  (2 <= length x)%nat -> length y = length x ->
  nth (length x - 1) (rhs x y) 0
  = 3 * delta y (length x - 2) / delta x (length x - 2).
Proof.
  intros HN Hy. unfold rhs. cbv zeta.
  pose proof (rhs_ends_length x y HN Hy) as He.
  rewrite splice_nth by solve_len_with He. nat_if.
  apply rhs_ends_last; assumption.
Qed.

Lemma rhs_inner (x y : list Q) (i : nat) :
  length y = length x -> (i + 2 < length x)%nat ->
  nth (i + 1) (rhs x y) 0
  = 3 * delta y (i + 1) / delta x (i + 1) * delta x i
    + 3 * delta y i / delta x i * delta x (i + 1).
Proof.
  intros Hy H. unfold rhs. cbv zeta.
  pose proof (rhs_ends_length x y ltac:(lia) Hy) as He.
  rewrite splice_nth by solve_len_with He. nat_if.
  rewrite (map2_nth _ _ _ _ 0 0) by solve_len_with He.
  rewrite (map2_nth _ _ _ _ 0 0) by solve_len_with He.
  rewrite (map2_nth _ _ _ _ 0 0) by solve_len_with He.
  rewrite !slice_nth by solve_len_with He.
  rewrite (diff_delta x _ i) by lia.
  rewrite (diff_delta x _ (i + 1)) by lia.
  rewrite (nth_eq_index (rhs_ends x y) 0 _ (i + 1)) by lia.
  rewrite (rhs_ends_inner x y (i + 1)) by (assumption || lia).
  rewrite (nth_eq_index (rhs_ends x y) 0 _ i) by lia.
  rewrite (rhs_ends_inner x y i) by (assumption || lia).
  reflexivity.
Qed.

Lemma qsum_S (f : nat -> Q) (n : nat) : qsum f (S n) == qsum f n + f n.
Proof.
  unfold qsum. rewrite seq_S, map_app. cbn [map Nat.add].
  generalize (map f (seq 0 n)). intros l.
  induction l as [|a l IH]; cbn [fold_right app]; [ring|]. rewrite IH. ring.
Qed.

Lemma qsum_ext (f g : nat -> Q) (n : nat) :
  (forall j, (j < n)%nat -> f j == g j) -> qsum f n == qsum g n.
Proof.
  induction n as [|n IH]; intros H; [reflexivity|].
  rewrite !qsum_S, IH, H by (intros; try apply H; lia). reflexivity.
Qed.

Lemma qsum_plus (f g : nat -> Q) (n : nat) :
  qsum (fun j => f j + g j) n == qsum f n + qsum g n.
Proof.
  induction n as [|n IH]; [reflexivity|]. rewrite !qsum_S, IH. ring.
Qed.

(** A sum with one nonzero term. *)
Lemma qsum_single (k : nat) (c : Q) (n : nat) :
  qsum (fun j => if (j =? k)%nat then c else 0) n == if (k <? n)%nat then c else 0.
Proof.
  induction n as [|n IH]; [reflexivity|].
  rewrite qsum_S, IH.
  destruct (Nat.ltb_spec k n), (Nat.ltb_spec k (S n)), (Nat.eqb_spec n k);
    try lia; ring.
Qed.

(** A row of a tridiagonal product has at most three terms. *)
Lemma row_dot_three (A : CSpline_Clasica.banded) (s : list Q) (i : nat) :
  (i < length s)%nat ->
  row_dot A s i ==
    (if (i =? 0)%nat then 0 else entry A i (i - 1) * nth (i - 1) s 0)
    + entry A i i * nth i s 0
    + (if (i + 1 <? length s)%nat then entry A i (i + 1) * nth (i + 1) s 0 else 0).
Proof.
  intros Hi. unfold row_dot.
  rewrite (qsum_ext _ (fun j =>
     ((if (j =? i - 1)%nat then (if (i =? 0)%nat then 0 else entry A i (i - 1) * nth (i - 1) s 0) else 0)
      + (if (j =? i)%nat then entry A i i * nth i s 0 else 0))
     + (if (j =? i + 1)%nat then entry A i (i + 1) * nth (i + 1) s 0 else 0))).
  - rewrite !qsum_plus, !qsum_single.
    destruct (Nat.ltb_spec (i - 1) (length s)), (Nat.ltb_spec i (length s)); try lia.
    reflexivity.
  - intros j Hj. unfold entry.
    assert (Hc : ((j = i - 1 /\ i <> 0) \/ j = i \/ j = i + 1 \/
                  ((j <> i - 1 \/ i = 0) /\ j <> i /\ j <> i + 1))%nat) by lia.
    destruct Hc as [[-> Hi0] | [-> | [-> | (H1 & H2 & H3)]]];
      repeat match goal with
        | |- context [Nat.eqb ?a ?b] => destruct (Nat.eqb_spec a b); try lia
        end; ring.
Qed.

Lemma entry_diag (r0 r1 r2 : list Q) (i : nat) :
  entry [r0; r1; r2] i i = nth i r1 0.
Proof.
  unfold entry. destruct (Nat.eqb_spec i (i + 1)); [lia|].
  rewrite Nat.eqb_refl. reflexivity.
Qed.

Lemma entry_super (r0 r1 r2 : list Q) (i : nat) :
  entry [r0; r1; r2] i (i + 1) = nth (i + 1) r0 0.
Proof. unfold entry. rewrite Nat.eqb_refl. reflexivity. Qed.

Lemma entry_sub (r0 r1 r2 : list Q) (i : nat) :
  entry [r0; r1; r2] (i + 1) i = nth i r2 0.
Proof.
  unfold entry. destruct (Nat.eqb_spec i (i + 1 + 1)); [lia|].
  destruct (Nat.eqb_spec i (i + 1)); [lia|].
  rewrite Nat.eqb_refl. reflexivity.
Qed.

Lemma row_0 (x : list Q) (s : list Q) :
  (2 <= length x)%nat -> length s = length x ->
  row_dot [super_row x; main_row x; sub_row x] s 0 == 2 * nth 0 s 0 + 1 * nth 1 s 0.
Proof.
  intros HN Hs. rewrite row_dot_three by lia.
  cbn [Nat.eqb]. destruct (Nat.ltb_spec (0 + 1) (length s)); [|lia].
  rewrite entry_diag, entry_super. cbn [Nat.add].
  rewrite main_row_0, super_row_1 by lia. ring.
Qed.

Lemma row_inner (x : list Q) (s : list Q) (i : nat) :
  (i + 2 < length x)%nat -> length s = length x ->
  row_dot [super_row x; main_row x; sub_row x] s (i + 1)
  == delta x (i + 1) * nth i s 0
     + 2 * (delta x i + delta x (i + 1)) * nth (i + 1) s 0
     + delta x i * nth (i + 2) s 0.
Proof.
  intros HN Hs. rewrite row_dot_three by lia.
  destruct (Nat.eqb_spec (i + 1) 0); [lia|].
  destruct (Nat.ltb_spec (i + 1 + 1) (length s)); [|lia].
  replace (i + 1 - 1)%nat with i by lia.
  rewrite entry_diag, entry_super, entry_sub.
  replace (i + 1 + 1)%nat with (i + 2)%nat by lia.
  rewrite main_row_inner, super_row_inner, sub_row_inner by lia. ring.
Qed.

Lemma row_last (x : list Q) (s : list Q) :
  (2 <= length x)%nat -> length s = length x ->
  row_dot [super_row x; main_row x; sub_row x] s (length x - 1)
  == 1 * nth (length x - 2) s 0 + 2 * nth (length x - 1) s 0.
Proof.
  intros HN Hs. rewrite row_dot_three by lia.
  destruct (Nat.eqb_spec (length x - 1) 0); [lia|].
  destruct (Nat.ltb_spec (length x - 1 + 1) (length s)); [lia|].
  replace (length x - 1 - 1)%nat with (length x - 2)%nat by lia.
  rewrite entry_diag.
  replace (length x - 1)%nat with (length x - 2 + 1)%nat at 1 by lia.
  rewrite entry_sub.
  rewrite main_row_last, sub_row_last by lia. ring.
Qed.

Lemma solves_rows (x y s : list Q) :
  (2 <= length x)%nat -> length y = length x ->
  solves [super_row x; main_row x; sub_row x] (rhs x y) s ->
  length s = length x /\ tri_rows x y s.
Proof.
  intros HN Hy [Hlen Hrows]. rewrite rhs_length in Hlen, Hrows by assumption.
  split; [exact Hlen|]. unfold tri_rows. cbv zeta. repeat split.
  - rewrite <- (row_0 x s HN Hlen), Hrows by lia.
    rewrite rhs_0 by assumption. reflexivity.
  - intros i Hi. rewrite <- (row_inner x s i Hi Hlen), Hrows by lia.
    rewrite rhs_inner by assumption. unfold Qdiv. ring.
  - rewrite <- (row_last x s HN Hlen), Hrows by lia.
    rewrite rhs_last by assumption. reflexivity.
Qed.

Lemma clasica_ok (solve_banded : CSpline_Clasica.solver) (x y : list Q) :
  (2 <= length x)%nat -> length y = length x -> exact_on solve_banded x y ->
  exists s sp,
    length s = length x /\ tri_rows x y s /\
    CSpline.__init__ x y s = Ok sp /\
    CSpline_Clasica.__init__ solve_banded x y = Ok sp.
Proof.
  intros HN Hy (A & p & s & HA & Hsolve & Hs).
  rewrite assemble_ok in HA by assumption. injection HA as <- <-.
  destruct (solves_rows x y s HN Hy Hs) as [Hlen Hrows].
  destruct (init_ok x y s Hy Hlen) as (a & b & E & _).
  exists s, (CSpline.mk x y s a b).
  split; [exact Hlen|]. split; [exact Hrows|]. split; [exact E|].
  unfold CSpline_Clasica.__init__. rewrite assemble_ok by assumption.
  cbn [bind fst snd]. rewrite Hsolve. cbn [bind]. exact E.
Qed.

(** ** Strict diagonal dominance: the system has one solution *)

Lemma max_abs_index (e : nat -> Q) (n : nat) :
  (0 < n)%nat ->
  exists m, (m < n)%nat /\ forall j, (j < n)%nat -> Qabs (e j) <= Qabs (e m).
Proof.
  induction n as [|n IH]; intros Hn; [lia|].
  destruct n as [|n].
  - exists 0%nat. split; [lia|]. intros j Hj. replace j with 0%nat by lia. apply Qle_refl.
  - destruct (IH ltac:(lia)) as (m & Hm & Hmax).
    destruct (Qlt_le_dec (Qabs (e m)) (Qabs (e (S n)))) as [Hlt|Hle].
    + exists (S n). split; [lia|]. intros j Hj.
      destruct (Nat.eq_dec j (S n)) as [->|Hne]; [apply Qle_refl|].
      apply Qle_trans with (Qabs (e m)); [apply Hmax; lia|apply Qlt_le_weak, Hlt].
    + exists m. split; [lia|]. intros j Hj.
      destruct (Nat.eq_dec j (S n)) as [->|Hne]; [exact Hle|apply Hmax; lia].
Qed.

Lemma abs_le_bounds (a b : Q) :
  Qabs a <= Qabs b -> (0 <= b /\ - b <= a <= b) \/ (b <= 0 /\ b <= a <= - b).
Proof.
  intros H. apply Qabs_Qle_condition in H.
  destruct (Qlt_le_dec b 0) as [Hb|Hb].
  - right. rewrite (Qabs_neg b) in H by lra. lra.
  - left. rewrite (Qabs_pos b) in H by lra. lra.
Qed.

Lemma dominance_zero (n : nat) (d e : nat -> Q) :
  (2 <= n)%nat ->
  (forall i, (i + 1 < n)%nat -> 0 < d i) ->
  2 * e 0%nat + 1 * e 1%nat == 0 ->
  (forall i, (i + 2 < n)%nat ->
     d (i + 1)%nat * e i + 2 * (d i + d (i + 1)%nat) * e (i + 1)%nat
     + d i * e (i + 2)%nat == 0) ->
  1 * e (n - 2)%nat + 2 * e (n - 1)%nat == 0 ->
  forall i, (i < n)%nat -> e i == 0.
Proof.
  intros Hn Hd H0 Hin Hlast.
  destruct (max_abs_index e n ltac:(lia)) as (m & Hm & Hmax).
  assert (Em : e m == 0).
  { destruct (Nat.eq_dec m 0) as [->|Hm0].
    - destruct (abs_le_bounds _ _ (Hmax 1%nat ltac:(lia))) as [[? [? ?]]|[? [? ?]]]; lra.
    - destruct (Nat.eq_dec m (n - 1)) as [->|Hm1].
      + destruct (abs_le_bounds _ _ (Hmax (n - 2)%nat ltac:(lia))) as [[? [? ?]]|[? [? ?]]]; lra.
      + specialize (Hin (m - 1)%nat ltac:(lia)).
        replace (m - 1 + 1)%nat with m in Hin by lia.
        replace (m - 1 + 2)%nat with (m + 1)%nat in Hin by lia.
        pose proof (Hd (m - 1)%nat ltac:(lia)) as Hd0.
        pose proof (Hd m ltac:(lia)) as Hd1.
        set (d0 := d (m - 1)%nat) in *. set (d1 := d m) in *.
        destruct (abs_le_bounds _ _ (Hmax (m - 1)%nat ltac:(lia))) as [[Hs [L1 U1]]|[Hs [L1 U1]]];
        destruct (abs_le_bounds _ _ (Hmax (m + 1)%nat ltac:(lia))) as [[Hs' [L2 U2]]|[Hs' [L2 U2]]];
        nra. }
  intros i Hi. specialize (Hmax i Hi).
  rewrite Em in Hmax. apply Qabs_Qle_condition in Hmax.
  change (Qabs 0) with 0 in Hmax. destruct Hmax. lra.
Qed.

(** * Concrete scenarios *)

(** Nodes [0, 1], values [0, 1], slopes [0, 0]: the midpoint evaluates to [1/2]. *)
Example flat_ended_midpoint :
  (sp <- CSpline.__init__ [0; 1] [0; 1] [0; 0] ;;
   r <- CSpline.__call__ sp (np.scalar (1 # 2)) ;;
   Ok (np.nd_map Qred r))
  = Ok (np.scalar (1 # 2)).
Proof. vm_compute. reflexivity. Qed.

(** Nodes [0, 1, 2, 3], values [0, 1, 0, 1], slopes from the reference
    solver: the nodes evaluate to the values and [1/2] to [3/4]. *)
Example zigzag_clasica :
  (sp <- CSpline_Clasica.__init__ TridiagonalSolver.solve [0; 1; 2; 3] [0; 1; 0; 1] ;;
   r <- CSpline.__call__ sp (np.mk_ndarray [5%nat] [0; 1; 2; 3; 1 # 2]) ;;
   Ok (np.nd_map Qred r))
  = Ok (np.mk_ndarray [5%nat] [0; 1; 0; 1; 3 # 4]).
Proof. vm_compute. reflexivity. Qed.

(** A query array of shape [2 x 3], with elements outside the nodes. *)
Example batch_2x3 :
  (sp <- CSpline.__init__ [0; 1; 2] [0; 1; 0] [0; 0; 0] ;;
   r <- CSpline.__call__ sp (np.mk_ndarray [2%nat; 3%nat] [-1; 0; 1 # 2; 1; 2; 3]) ;;
   Ok (np.nd_map Qred r))
  = Ok (np.mk_ndarray [2%nat; 3%nat] [5; 0; 1 # 2; 1; 0; 5]).
Proof. vm_compute. reflexivity. Qed.

(** One node is not enough for [CSpline_Clasica]: the first assignment to
    [A[0, 1]] is out of bounds. *)
Example clasica_one_node :
  CSpline_Clasica.assemble [0] [0] = Raise IndexError.
Proof. reflexivity. Qed.

(** * The claims *)

(** ** Auxiliary facts *)

Lemma scalar_call (sp : CSpline.t) (q : Q) :
  well_formed sp -> CSpline.__call__ sp (np.scalar q) = Ok (np.scalar (eval_at sp q)).
Proof. intros H. rewrite call_ok by exact H. reflexivity. Qed.

Lemma index_at_node (x : list Q) (i : nat) :
  increasing x -> (2 <= length x)%nat -> (i < length x)%nat ->
  Z.to_nat (np.clip 0 (Z.of_nat (length x) - 2)
              (Z.of_nat (np.searchsorted_right x (nth i x 0)) - 1))
  = Nat.min i (length x - 2).
Proof.
  intros Hinc HN Hi. rewrite searchsorted_right_node by assumption.
  unfold np.clip. lia.
Qed.

Lemma insertion_below (x : list Q) (q : Q) :
  increasing x -> (1 <= length x)%nat -> q < nth 0 x 0 ->
  np.searchsorted_right x q = 0%nat.
Proof.
  intros Hinc HN Hq. pose proof (increasing_nth x Hinc) as Hmono.
  apply (insertion_right_unique x q); [apply searchsorted_right_spec, Hinc|].
  repeat split; [lia|intros k Hk; lia|].
  intros k Hk. destruct k as [|k]; [exact Hq|].
  apply Qlt_trans with (nth 0 x 0); [exact Hq|apply Hmono; lia].
Qed.

Lemma insertion_above (x : list Q) (q : Q) :
  increasing x -> (1 <= length x)%nat -> nth (length x - 1) x 0 <= q ->
  np.searchsorted_right x q = length x.
Proof.
  intros Hinc HN Hq. pose proof (increasing_nth x Hinc) as Hmono.
  apply (insertion_right_unique x q); [apply searchsorted_right_spec, Hinc|].
  repeat split; [lia| |intros k Hk; lia].
  intros k Hk. destruct (Nat.eq_dec k (length x - 1)) as [->|Hne]; [exact Hq|].
  apply Qle_trans with (nth (length x - 1) x 0); [|exact Hq].
  apply Qlt_le_weak, Hmono. lia.
Qed.

Lemma broadcast2_mismatch (f : Q -> Q -> Q) (a b : list Q) :
  length a <> length b -> length a <> 1%nat -> length b <> 1%nat ->
  np.broadcast2 f a b = Raise ValueError.
Proof.
  intros Hab Ha Hb. unfold np.broadcast2.
  destruct (Nat.eqb_spec (length a) (length b)) as [E|_]; [contradiction|].
  destruct a as [|u [|u' a]], b as [|v [|v' b]]; cbn [length] in *;
    try reflexivity; lia.
Qed.

Lemma broadcast2_left1 (f : Q -> Q -> Q) (u : Q) (b : list Q) :
  length b <> 1%nat -> np.broadcast2 f [u] b = Ok (map (f u) b).
Proof.
  intros Hb. unfold np.broadcast2. cbn [length].
  destruct (Nat.eqb_spec 1 (length b)) as [E|_]; [lia|]. reflexivity.
Qed.

Lemma reference_exact_on_010 :
  exact_on TridiagonalSolver.solve [0; 1; 3] [0; 1; 0].
Proof.
  eexists. eexists. eexists.
  split; [vm_compute; reflexivity|]. split; [vm_compute; reflexivity|].
  split; [reflexivity|].
  intros i Hi. destruct i as [|[|[|i]]]; try (vm_compute; reflexivity).
  simpl in Hi. lia.
Defined.

Lemma affine_slope (x y : list Q) (alpha beta c : Q) (i : nat) :
  increasing x -> (i + 1 < length x)%nat ->
  (forall j, (j < length x)%nat -> nth j y 0 == alpha * nth j x 0 + beta) ->
  c * delta y i / delta x i == c * alpha.
Proof.
  intros Hinc Hi Hlin.
  pose proof (increasing_delta_pos x i Hinc Hi) as Hd.
  unfold delta in *.
  rewrite (Hlin (S i) ltac:(lia)), (Hlin i ltac:(lia)).
  field. lra.
Qed.

Lemma reference_exact_on_137 :
  exact_on TridiagonalSolver.solve [0; 1; 3] [1; 3; 7].
Proof.
  eexists. eexists. eexists.
  split; [vm_compute; reflexivity|]. split; [vm_compute; reflexivity|].
  split; [reflexivity|].
  intros i Hi. destruct i as [|[|[|i]]]; try (vm_compute; reflexivity).
  simpl in Hi. lia.
Defined.

(** ** Statements *)

(** C1. Interpolation: a spline built by [CSpline] from strictly increasing
    nodes [x] (at least two), values [y] and slopes [s] of the same length
    evaluates at every node [x_i], the last one included, to [y_i]. *)
Theorem C1_interpolation (x y s : list Q) :
  increasing x -> (2 <= length x)%nat ->
  length y = length x -> length s = length x ->
  exists sp,
    CSpline.__init__ x y s = Ok sp /\
    forall i, (i < length x)%nat ->
      exists v,
        CSpline.__call__ sp (np.scalar (nth i x 0)) = Ok (np.scalar v) /\
        v == nth i y 0.
Proof.
  intros Hinc HN Hy Hs.
  destruct (init_ok x y s Hy Hs) as (a & b & E & Ha & Hb & _).
  exists (CSpline.mk x y s a b). split; [exact E|].
  intros i Hi. eexists. split.
  - apply scalar_call. apply (init_well_formed x y s); assumption.
  - unfold eval_at, segment_index. cbn [CSpline.xi].
    rewrite index_at_node by assumption.
    rewrite (horner_segment _ x) by reflexivity.
    destruct (Nat.eq_dec i (length x - 1)) as [->|Hne].
    + replace (Nat.min (length x - 1) (length x - 2)) with (length x - 2)%nat by lia.
      destruct (segment_hermite x y s _ (length x - 2) Hinc Hy Hs E ltac:(lia))
        as (_ & _ & H & _).
      replace (S (length x - 2)) with (length x - 1)%nat in H by lia. exact H.
    + replace (Nat.min i (length x - 2)) with i by lia.
      destruct (segment_hermite x y s _ i Hinc Hy Hs E ltac:(lia)) as (H & _).
      exact H.
Qed.

Lemma C1_interpolation_witness :
  exists sp,
    CSpline.__init__ [0; 1; 2] [0; 1; 0] [0; 0; 0] = Ok sp /\
    forall i, (i < 3)%nat ->
      exists v,
        CSpline.__call__ sp (np.scalar (nth i [0; 1; 2] 0)) = Ok (np.scalar v) /\
        v == nth i [0; 1; 0] 0.
Proof.
  apply (C1_interpolation [0; 1; 2] [0; 1; 0] [0; 0; 0]).
  - simpl. repeat split.
  - simpl. lia.
  - reflexivity.
  - reflexivity.
Defined.

(** C2. Hermite conditions: on every segment [i] of a spline built by
    [CSpline], the cubic with the stored coefficients takes the values [y_i],
    [y_(i+1)] and the slopes [s_i], [s_(i+1)] at the two ends. *)
Theorem C2_hermite_conditions (x y s : list Q) :
  increasing x -> (2 <= length x)%nat ->
  length y = length x -> length s = length x ->
  exists sp,
    CSpline.__init__ x y s = Ok sp /\
    forall i, (i + 1 < length x)%nat ->
      segment sp i (nth i x 0) == nth i y 0 /\
      segment' sp i (nth i x 0) == nth i s 0 /\
      segment sp i (nth (S i) x 0) == nth (S i) y 0 /\
      segment' sp i (nth (S i) x 0) == nth (S i) s 0.
Proof.
  intros Hinc HN Hy Hs.
  destruct (init_ok x y s Hy Hs) as (a & b & E & _).
  exists (CSpline.mk x y s a b). split; [exact E|].
  intros i Hi. exact (segment_hermite x y s _ i Hinc Hy Hs E Hi).
Qed.

Lemma C2_hermite_conditions_witness :
  exists sp,
    CSpline.__init__ [0; 1; 3] [0; 1; 0] [1; -1; 2] = Ok sp /\
    forall i, (i + 1 < 3)%nat ->
      segment sp i (nth i [0; 1; 3] 0) == nth i [0; 1; 0] 0 /\
      segment' sp i (nth i [0; 1; 3] 0) == nth i [1; -1; 2] 0 /\
      segment sp i (nth (S i) [0; 1; 3] 0) == nth (S i) [0; 1; 0] 0 /\
      segment' sp i (nth (S i) [0; 1; 3] 0) == nth (S i) [1; -1; 2] 0.
Proof.
  apply (C2_hermite_conditions [0; 1; 3] [0; 1; 0] [1; -1; 2]).
  - simpl. repeat split.
  - simpl. lia.
  - reflexivity.
  - reflexivity.
Defined.

(** C3. Continuity of the second derivative: when the solver returns an
    exact solution of the assembled system, [CSpline_Clasica] returns a
    spline with all its arrays, whose segment cubics take the values [y] and
    the stored slopes at their ends, and which has, at every interior node
    [x_k], the same second derivative on segment [k-1] and on segment [k]. *)
Theorem C3_second_derivative_continuity
        (solve_banded : CSpline_Clasica.solver) (x y : list Q) :
  increasing x -> (2 <= length x)%nat -> length y = length x ->
  exact_on solve_banded x y ->
  exists sp,
    CSpline_Clasica.__init__ solve_banded x y = Ok sp /\
    well_formed sp /\ CSpline.xi sp = x /\ CSpline.yi sp = y /\
    (forall i, (i + 1 < length x)%nat ->
       segment sp i (nth i x 0) == nth i y 0 /\
       segment' sp i (nth i x 0) == nth i (CSpline.si sp) 0 /\
       segment sp i (nth (S i) x 0) == nth (S i) y 0 /\
       segment' sp i (nth (S i) x 0) == nth (S i) (CSpline.si sp) 0) /\
    forall k, (1 <= k <= length x - 2)%nat ->
      segment'' sp (k - 1) (nth k x 0) == segment'' sp k (nth k x 0).
Proof.
  intros Hinc HN Hy Hex.
  destruct (clasica_ok solve_banded x y HN Hy Hex)
    as (s & sp & Hlen & Hrows & Einit & Ecl).
  exists sp. split; [exact Ecl|].
  split; [apply (init_well_formed x y s); assumption|].
  destruct (init_ok x y s Hy Hlen) as (a & b & E & _ & _ & Hab).
  assert (Esp : sp = CSpline.mk x y s a b) by congruence. subst sp.
  split; [reflexivity|]. split; [reflexivity|].
  split; [intros i Hi; exact (segment_hermite x y s _ i Hinc Hy Hlen E Hi)|].
  intros k Hk. destruct k as [|i]; [lia|].
  replace (S i - 1)%nat with i by lia.
  destruct Hrows as (_ & Hin & _). specialize (Hin i ltac:(lia)).
  replace (i + 1)%nat with (S i) in Hin by lia.
  replace (i + 2)%nat with (S (S i)) in Hin by lia.
  destruct (Hab i ltac:(lia)) as [Ea0 Eb0].
  destruct (Hab (S i) ltac:(lia)) as [Ea1 _].
  pose proof (increasing_delta_pos x i Hinc ltac:(lia)) as Hd0.
  pose proof (increasing_delta_pos x (S i) Hinc ltac:(lia)) as Hd1.
  unfold segment'', segment_poly, pderiv.
  cbn [CSpline.xi CSpline.yi CSpline.si CSpline.ai CSpline.bi pderiv_from peval].
  rewrite Ea0, Eb0, Ea1.
  change (inject_Z (Z.of_nat 1)) with 1. change (inject_Z (Z.of_nat 2)) with 2.
  fold (delta x i).
  set (d0 := delta x i) in *. set (d1 := delta x (S i)) in *.
  set (e0 := delta y i) in *. set (e1 := delta y (S i)) in *.
  set (s0 := nth i s 0) in *. set (s1 := nth (S i) s 0) in *.
  set (s2 := nth (S (S i)) s 0) in *.
  assert (N0 : ~ d0 == 0) by lra. assert (N1 : ~ d1 == 0) by lra.
  assert (E2 : s2 == (3 * (e0 / d0 * d1 + e1 / d1 * d0)
                      - d1 * s0 - 2 * (d0 + d1) * s1) / d0)
    by (rewrite <- Hin; field; exact N0).
  rewrite E2. field. split; assumption.
Qed.

Lemma C3_second_derivative_continuity_witness :
  exists sp,
    CSpline_Clasica.__init__ TridiagonalSolver.solve [0; 1; 3] [0; 1; 0] = Ok sp /\
    well_formed sp /\ CSpline.xi sp = [0; 1; 3] /\ CSpline.yi sp = [0; 1; 0] /\
    (forall i, (i + 1 < 3)%nat ->
       segment sp i (nth i [0; 1; 3] 0) == nth i [0; 1; 0] 0 /\
       segment' sp i (nth i [0; 1; 3] 0) == nth i (CSpline.si sp) 0 /\
       segment sp i (nth (S i) [0; 1; 3] 0) == nth (S i) [0; 1; 0] 0 /\
       segment' sp i (nth (S i) [0; 1; 3] 0) == nth (S i) (CSpline.si sp) 0) /\
    forall k, (1 <= k <= 3 - 2)%nat ->
      segment'' sp (k - 1) (nth k [0; 1; 3] 0) == segment'' sp k (nth k [0; 1; 3] 0).
Proof.
  apply (C3_second_derivative_continuity TridiagonalSolver.solve [0; 1; 3] [0; 1; 0]).
  - simpl. repeat split.
  - simpl. lia.
  - reflexivity.
  - exact reference_exact_on_010.
Defined.

(** C4. The assembled system: row 0 is [2 s_0 + 1 s_1 = 3 dy_0/dx_0], an
    interior row [k] is
    [dx_k s_(k-1) + 2 (dx_(k-1) + dx_k) s_k + dx_(k-1) s_(k+1)
     = 3 (dy_(k-1)/dx_(k-1) dx_k + dy_k/dx_k dx_(k-1))],
    and row [N-1] is [1 s_(N-2) + 2 s_(N-1) = 3 dy_(N-2)/dx_(N-2)].  The
    left-hand sides are rows of the product of the stored matrix with an
    arbitrary vector [s]. *)
Theorem C4_tridiagonal_system (x y : list Q) :
  increasing x -> (2 <= length x)%nat -> length y = length x ->
  exists A p,
    CSpline_Clasica.assemble x y = Ok (A, p) /\ length p = length x /\
    ((forall s, length s = length x ->
        row_dot A s 0 == 2 * nth 0 s 0 + 1 * nth 1 s 0) /\
     nth 0 p 0 == 3 * delta y 0 / delta x 0) /\
    (forall k, (1 <= k <= length x - 2)%nat ->
       (forall s, length s = length x ->
          row_dot A s k
          == delta x k * nth (k - 1) s 0
             + 2 * (delta x (k - 1) + delta x k) * nth k s 0
             + delta x (k - 1) * nth (k + 1) s 0) /\
       nth k p 0
       == 3 * (delta y (k - 1) / delta x (k - 1) * delta x k
               + delta y k / delta x k * delta x (k - 1))) /\
    ((forall s, length s = length x ->
        row_dot A s (length x - 1)
        == 1 * nth (length x - 2) s 0 + 2 * nth (length x - 1) s 0) /\
     nth (length x - 1) p 0
     == 3 * delta y (length x - 2) / delta x (length x - 2)).
Proof.
  intros _ HN Hy.
  exists [super_row x; main_row x; sub_row x], (rhs x y).
  split; [apply assemble_ok; assumption|].
  split; [apply rhs_length; assumption|].
  split; [|split].
  - split; [intros s Hs; apply row_0; assumption|].
    rewrite rhs_0 by assumption. reflexivity.
  - intros k Hk.
    assert (Ek : exists i, k = (i + 1)%nat) by (exists (k - 1)%nat; lia).
    destruct Ek as [i ->].
    replace (i + 1 - 1)%nat with i by lia.
    replace (i + 1 + 1)%nat with (i + 2)%nat by lia.
    split.
    + intros s Hs. apply row_inner; [lia|assumption].
    + rewrite rhs_inner by (assumption || lia). unfold Qdiv. ring.
  - split; [intros s Hs; apply row_last; assumption|].
    rewrite rhs_last by assumption. reflexivity.
Qed.

Lemma C4_tridiagonal_system_witness :
  exists A p,
    CSpline_Clasica.assemble [0; 1; 3; 4] [0; 1; 0; 5] = Ok (A, p) /\
    length p = 4%nat /\
    ((forall s, length s = 4%nat ->
        row_dot A s 0 == 2 * nth 0 s 0 + 1 * nth 1 s 0) /\
     nth 0 p 0 == 3 * delta [0; 1; 0; 5] 0 / delta [0; 1; 3; 4] 0) /\
    (forall k, (1 <= k <= 4 - 2)%nat ->
       (forall s, length s = 4%nat ->
          row_dot A s k
          == delta [0; 1; 3; 4] k * nth (k - 1) s 0
             + 2 * (delta [0; 1; 3; 4] (k - 1) + delta [0; 1; 3; 4] k) * nth k s 0
             + delta [0; 1; 3; 4] (k - 1) * nth (k + 1) s 0) /\
       nth k p 0
       == 3 * (delta [0; 1; 0; 5] (k - 1) / delta [0; 1; 3; 4] (k - 1)
                 * delta [0; 1; 3; 4] k
               + delta [0; 1; 0; 5] k / delta [0; 1; 3; 4] k
                 * delta [0; 1; 3; 4] (k - 1))) /\
    ((forall s, length s = 4%nat ->
        row_dot A s (4 - 1) == 1 * nth (4 - 2) s 0 + 2 * nth (4 - 1) s 0) /\
     nth (4 - 1) p 0
     == 3 * delta [0; 1; 0; 5] (4 - 2) / delta [0; 1; 3; 4] (4 - 2)).
Proof.
  apply (C4_tridiagonal_system [0; 1; 3; 4] [0; 1; 0; 5]).
  - simpl. repeat split.
  - simpl. lia.
  - reflexivity.
Defined.

(** C5 (as stated it fails). For the nodes [0, 1, 2] and the values
    [0, 1, 0] the final right-hand side is [3, 0, -3]: its last entry is not
    the entry before it. *)
Lemma C5_counterexample :
  increasing [0; 1; 2] /\
  exists A p,
    CSpline_Clasica.assemble [0; 1; 2] [0; 1; 0] = Ok (A, p) /\
    ~ nth (3 - 1) p 0 == nth (3 - 2) p 0.
Proof.
  split; [simpl; repeat split|].
  eexists. eexists. split; [vm_compute; reflexivity|].
  vm_compute. discriminate.
Qed.

(** C5 (amended). In the final system the right-hand side of row [N-1] is
    [3 dy_(N-2)/dx_(N-2)], the value row [N-2] held when it was copied and
    before the interior rows were weighted.  With two nodes the two entries
    are equal; with more, row [N-2] is an interior row and holds the weighted
    sum of the last two slopes. *)
Theorem C5_last_rhs (x y : list Q) :
  increasing x -> (2 <= length x)%nat -> length y = length x ->
  exists A p,
    CSpline_Clasica.assemble x y = Ok (A, p) /\
    nth (length x - 1) p 0 = 3 * delta y (length x - 2) / delta x (length x - 2) /\
    (length x = 2%nat -> nth (length x - 1) p 0 = nth (length x - 2) p 0) /\
    ((3 <= length x)%nat ->
     nth (length x - 2) p 0
     = 3 * delta y (length x - 2) / delta x (length x - 2) * delta x (length x - 3)
       + 3 * delta y (length x - 3) / delta x (length x - 3) * delta x (length x - 2)).
Proof.
  intros _ HN Hy.
  exists [super_row x; main_row x; sub_row x], (rhs x y).
  split; [apply assemble_ok; assumption|].
  split; [apply rhs_last; assumption|]. split.
  - intros H2. rewrite rhs_last by assumption. rewrite H2. cbn [Nat.sub].
    symmetry. rewrite <- (rhs_0 x y) by assumption. reflexivity.
  - intros H3.
    replace (length x - 2)%nat with (length x - 3 + 1)%nat by lia.
    replace (length x - 3 + 1 - 3)%nat with (length x - 3 - 2)%nat by lia.
    rewrite rhs_inner by (assumption || lia). reflexivity.
Qed.

Lemma C5_last_rhs_witness :
  exists A p,
    CSpline_Clasica.assemble [0; 1; 2] [0; 1; 0] = Ok (A, p) /\
    nth (3 - 1) p 0 = 3 * delta [0; 1; 0] (3 - 2) / delta [0; 1; 2] (3 - 2) /\
    (3%nat = 2%nat -> nth (3 - 1) p 0 = nth (3 - 2) p 0) /\
    ((3 <= 3)%nat ->
     nth (3 - 2) p 0
     = 3 * delta [0; 1; 0] (3 - 2) / delta [0; 1; 2] (3 - 2) * delta [0; 1; 2] (3 - 3)
       + 3 * delta [0; 1; 0] (3 - 3) / delta [0; 1; 2] (3 - 3) * delta [0; 1; 2] (3 - 2)).
Proof.
  apply (C5_last_rhs [0; 1; 2] [0; 1; 0]).
  - simpl. repeat split.
  - simpl. lia.
  - reflexivity.
Defined.

(** C6. Segment selection: for every query [q] the evaluation succeeds and
    returns the cubic of segment [j], where [j] is the rightmost insertion
    point of [q] among the nodes, minus one, clamped to [0, N-2].  Below
    [x_0] that is segment 0 with a negative offset; from [x_(N-1)] on it is
    segment [N-2] with an offset of at least the last interval. *)
Theorem C6_segment_selection (x y s : list Q) :
  increasing x -> (2 <= length x)%nat ->
  length y = length x -> length s = length x ->
  exists sp,
    CSpline.__init__ x y s = Ok sp /\
    forall q, exists r,
      insertion_right x q r /\
      let j := Z.to_nat (np.clip 0 (Z.of_nat (length x) - 2) (Z.of_nat r - 1)) in
      CSpline.__call__ sp (np.scalar q)
        = Ok (np.scalar (horner sp j (q - nth j x 0))) /\
      horner sp j (q - nth j x 0) == segment sp j q /\
      (j <= length x - 2)%nat /\
      (q < nth 0 x 0 -> j = 0%nat /\ q - nth j x 0 < 0) /\
      (nth (length x - 1) x 0 <= q ->
       j = (length x - 2)%nat /\ delta x (length x - 2) <= q - nth j x 0).
Proof.
  intros Hinc HN Hy Hs.
  destruct (init_ok x y s Hy Hs) as (a & b & E & Ha & Hb & _).
  exists (CSpline.mk x y s a b). split; [exact E|].
  intros q. exists (np.searchsorted_right x q).
  split; [apply searchsorted_right_spec, Hinc|]. cbv zeta.
  split; [|split; [|split; [|split]]].
  - rewrite scalar_call by (apply (init_well_formed x y s); assumption).
    reflexivity.
  - apply horner_segment. reflexivity.
  - unfold np.clip. lia.
  - intros Hq. rewrite insertion_below by (assumption || lia).
    assert (Ej : Z.to_nat (np.clip 0 (Z.of_nat (length x) - 2) (Z.of_nat 0 - 1)) = 0%nat)
      by (unfold np.clip; lia).
    rewrite Ej. split; [reflexivity|]. lra.
  - intros Hq. rewrite insertion_above by (assumption || lia).
    assert (Ej : Z.to_nat (np.clip 0 (Z.of_nat (length x) - 2) (Z.of_nat (length x) - 1))
                 = (length x - 2)%nat) by (unfold np.clip; lia).
    rewrite Ej. split; [reflexivity|]. unfold delta.
    replace (S (length x - 2)) with (length x - 1)%nat by lia. lra.
Qed.

Lemma C6_segment_selection_witness :
  exists sp,
    CSpline.__init__ [0; 1; 3] [0; 1; 0] [1; -1; 2] = Ok sp /\
    forall q, exists r,
      insertion_right [0; 1; 3] q r /\
      let j := Z.to_nat (np.clip 0 (Z.of_nat 3 - 2) (Z.of_nat r - 1)) in
      CSpline.__call__ sp (np.scalar q)
        = Ok (np.scalar (horner sp j (q - nth j [0; 1; 3] 0))) /\
      horner sp j (q - nth j [0; 1; 3] 0) == segment sp j q /\
      (j <= 3 - 2)%nat /\
      (q < 0 -> j = 0%nat /\ q - nth j [0; 1; 3] 0 < 0) /\
      (3 <= q -> j = (3 - 2)%nat /\ delta [0; 1; 3] (3 - 2) <= q - nth j [0; 1; 3] 0).
Proof.
  apply (C6_segment_selection [0; 1; 3] [0; 1; 0] [1; -1; 2]).
  - simpl. repeat split.
  - simpl. lia.
  - reflexivity.
  - reflexivity.
Defined.

(** C7 (as stated it fails). Nodes that are not increasing are accepted:
    both constructors return a spline for the nodes [1, 1/2, 2]. *)
Lemma C7_counterexample :
  ~ increasing [1; 1 # 2; 2] /\
  (exists sp, CSpline.__init__ [1; 1 # 2; 2] [0; 1; 0] [0; 0; 0] = Ok sp) /\
  (exists sp,
     CSpline_Clasica.__init__ TridiagonalSolver.solve [1; 1 # 2; 2] [0; 1; 0] = Ok sp).
Proof.
  split; [|split].
  - intros [H _]. vm_compute in H. discriminate H.
  - eexists. vm_compute. reflexivity.
  - eexists. vm_compute. reflexivity.
Qed.

(** C7 (amended). The constructors do not look at the order of the nodes:
    for at least two nodes and sequences of equal length, [CSpline] returns a
    spline that stores the three sequences, and [CSpline_Clasica] assembles
    its system and returns a spline whenever the solver returns that many
    slopes. *)
Theorem C7_no_order_validation (x y s : list Q) :
  (2 <= length x)%nat -> length y = length x -> length s = length x ->
  (exists sp,
     CSpline.__init__ x y s = Ok sp /\
     CSpline.xi sp = x /\ CSpline.yi sp = y /\ CSpline.si sp = s) /\
  (exists A p,
     CSpline_Clasica.assemble x y = Ok (A, p) /\
     forall solve_banded : CSpline_Clasica.solver,
       solve_banded A p = Ok s ->
       exists sp,
         CSpline_Clasica.__init__ solve_banded x y = Ok sp /\
         CSpline.xi sp = x /\ CSpline.yi sp = y /\ CSpline.si sp = s).
Proof.
  intros HN Hy Hs.
  destruct (init_ok x y s Hy Hs) as (a & b & E & _).
  split.
  - exists (CSpline.mk x y s a b). repeat split. exact E.
  - exists [super_row x; main_row x; sub_row x], (rhs x y).
    split; [apply assemble_ok; assumption|].
    intros solve_banded Hsolve. exists (CSpline.mk x y s a b).
    repeat split. unfold CSpline_Clasica.__init__.
    rewrite assemble_ok by assumption. cbn [bind fst snd].
    rewrite Hsolve. exact E.
Qed.

Lemma C7_no_order_validation_witness :
  (exists sp,
     CSpline.__init__ [1; 1 # 2; 2] [0; 1; 0] [0; 0; 0] = Ok sp /\
     CSpline.xi sp = [1; 1 # 2; 2] /\ CSpline.yi sp = [0; 1; 0] /\
     CSpline.si sp = [0; 0; 0]) /\
  (exists A p,
     CSpline_Clasica.assemble [1; 1 # 2; 2] [0; 1; 0] = Ok (A, p) /\
     forall solve_banded : CSpline_Clasica.solver,
       solve_banded A p = Ok [0; 0; 0] ->
       exists sp,
         CSpline_Clasica.__init__ solve_banded [1; 1 # 2; 2] [0; 1; 0] = Ok sp /\
         CSpline.xi sp = [1; 1 # 2; 2] /\ CSpline.yi sp = [0; 1; 0] /\
         CSpline.si sp = [0; 0; 0]).
Proof.
  apply (C7_no_order_validation [1; 1 # 2; 2] [0; 1; 0] [0; 0; 0]).
  - simpl. lia.
  - reflexivity.
  - reflexivity.
Defined.

(** C8 (as stated it fails). Three nodes with two values (and three slopes)
    construct a spline: the single difference of the values is broadcast
    over the two intervals.  [CSpline_Clasica] accepts them as well. *)
Lemma C8_counterexample :
  length [0; 1; 2] = 3%nat /\ length [0; 1] = 2%nat /\
  (exists sp, CSpline.__init__ [0; 1; 2] [0; 1] [0; 0; 0] = Ok sp) /\
  (exists sp,
     CSpline_Clasica.__init__ TridiagonalSolver.solve [0; 1; 2] [0; 1] = Ok sp).
Proof.
  split; [reflexivity|]. split; [reflexivity|]. split.
  - eexists. vm_compute. reflexivity.
  - eexists. vm_compute. reflexivity.
Qed.

(** C8 (amended). [CSpline] has no length check of its own; a mismatch is
    whatever NumPy's broadcasting makes of it.  With at least three nodes and
    as many slopes, the constructor returns a spline when the values are as
    many as the nodes or exactly two, and raises [ValueError] for every other
    number of values. *)
Theorem C8_length_mismatch (x y s : list Q) :
  (3 <= length x)%nat -> length s = length x ->
  ((length y = length x \/ length y = 2%nat) ->
   exists sp,
     CSpline.__init__ x y s = Ok sp /\
     CSpline.xi sp = x /\ CSpline.yi sp = y /\ CSpline.si sp = s) /\
  (length y <> length x -> length y <> 2%nat ->
   CSpline.__init__ x y s = Raise ValueError).
Proof.
  intros HN Hs. split.
  - intros [Hy|Hy].
    + destruct (init_ok x y s Hy Hs) as (a & b & E & _).
      exists (CSpline.mk x y s a b). repeat split. exact E.
    + destruct y as [|u [|v [|w y]]]; cbn [length] in Hy; try lia.
      unfold CSpline.__init__, np.div, np.sub, np.add.
      cbn [np.diff np.scale map].
      rewrite !broadcast2_left1 by (rewrite diff_length; lia).
      cbn [bind].
      repeat (rewrite broadcast2_same
                by (repeat first [ rewrite length_map | rewrite map2_length ];
                    solve_len);
              cbn [bind]).
      eexists. repeat split.
  - intros Hne Hne2. unfold CSpline.__init__, np.div.
    rewrite broadcast2_mismatch; [reflexivity| | |];
      rewrite ?scale_length, !diff_length; lia.
Qed.

Lemma C8_length_mismatch_witness :
  (exists sp,
     CSpline.__init__ [0; 1; 2] [0; 1] [0; 0; 0] = Ok sp /\
     CSpline.xi sp = [0; 1; 2] /\ CSpline.yi sp = [0; 1] /\
     CSpline.si sp = [0; 0; 0]) /\
  CSpline.__init__ [0; 1; 2] [0; 1; 2; 3] [0; 0; 0] = Raise ValueError.
Proof.
  split.
  - apply (C8_length_mismatch [0; 1; 2] [0; 1] [0; 0; 0]).
    + simpl. lia.
    + reflexivity.
    + right. reflexivity.
  - apply (C8_length_mismatch [0; 1; 2] [0; 1; 2; 3] [0; 0; 0]).
    + simpl. lia.
    + reflexivity.
    + simpl. lia.
    + simpl. lia.
Defined.

(** C9. Batch evaluation: for a query array of any shape the evaluation
    succeeds, the result has the shape of the query, and each of its
    elements is what the evaluation returns for that element alone. *)
Theorem C9_elementwise (x y s : list Q) :
  increasing x -> (2 <= length x)%nat ->
  length y = length x -> length s = length x ->
  exists sp,
    CSpline.__init__ x y s = Ok sp /\
    forall qs : np.ndarray Q, exists r,
      CSpline.__call__ sp qs = Ok r /\
      np.shape r = np.shape qs /\
      length (np.data r) = length (np.data qs) /\
      forall k, (k < length (np.data qs))%nat ->
        CSpline.__call__ sp (np.scalar (nth k (np.data qs) 0))
        = Ok (np.scalar (nth k (np.data r) 0)).
Proof.
  intros Hinc HN Hy Hs.
  destruct (init_ok x y s Hy Hs) as (a & b & E & Ha & Hb & _).
  exists (CSpline.mk x y s a b). split; [exact E|].
  assert (W : well_formed (CSpline.mk x y s a b))
    by (apply (init_well_formed x y s); assumption).
  intros qs. exists (np.nd_map (eval_at (CSpline.mk x y s a b)) qs).
  split; [apply call_ok, W|]. split; [reflexivity|].
  split; [apply length_map|].
  intros k Hk. rewrite scalar_call by exact W. cbn [np.nd_map np.data].
  rewrite (nth_indep (map (eval_at (CSpline.mk x y s a b)) (np.data qs))
             0 (eval_at (CSpline.mk x y s a b) 0))
    by (rewrite length_map; exact Hk).
  rewrite map_nth. reflexivity.
Qed.

Lemma C9_elementwise_witness :
  exists sp,
    CSpline.__init__ [0; 1; 3] [0; 1; 0] [1; -1; 2] = Ok sp /\
    forall qs : np.ndarray Q, exists r,
      CSpline.__call__ sp qs = Ok r /\
      np.shape r = np.shape qs /\
      length (np.data r) = length (np.data qs) /\
      forall k, (k < length (np.data qs))%nat ->
        CSpline.__call__ sp (np.scalar (nth k (np.data qs) 0))
        = Ok (np.scalar (nth k (np.data r) 0)).
Proof.
  apply (C9_elementwise [0; 1; 3] [0; 1; 0] [1; -1; 2]).
  - simpl. repeat split.
  - simpl. lia.
  - reflexivity.
  - reflexivity.
Defined.

(** C10. Affine data: when the values lie on [alpha x + beta] and the solver
    is exact, the slopes that [CSpline_Clasica] stores are all [alpha], the
    quadratic and cubic coefficients of every segment vanish, and the spline
    evaluates to [alpha q + beta] at every query [q], inside the nodes or
    outside. *)
Theorem C10_affine_reproduction
        (solve_banded : CSpline_Clasica.solver) (x y : list Q) (alpha beta : Q) :
  increasing x -> (2 <= length x)%nat -> length y = length x ->
  (forall i, (i < length x)%nat -> nth i y 0 == alpha * nth i x 0 + beta) ->
  exact_on solve_banded x y ->
  exists sp,
    CSpline_Clasica.__init__ solve_banded x y = Ok sp /\
    (forall i, (i < length x)%nat -> nth i (CSpline.si sp) 0 == alpha) /\
    (forall i, (i + 1 < length x)%nat ->
       nth i (CSpline.ai sp) 0 == 0 /\ nth i (CSpline.bi sp) 0 == 0) /\
    forall q, exists v,
      CSpline.__call__ sp (np.scalar q) = Ok (np.scalar v) /\
      v == alpha * q + beta.
Proof.
  intros Hinc HN Hy Hlin Hex.
  destruct (clasica_ok solve_banded x y HN Hy Hex)
    as (s & sp & Hlen & Hrows & Einit & Ecl).
  exists sp. split; [exact Ecl|].
  destruct (init_ok x y s Hy Hlen) as (a & b & E & Ha & Hb & Hab).
  pose proof (init_well_formed x y s sp HN Hy Hlen Einit) as W.
  rewrite E in Einit. injection Einit as <-.
  cbn [CSpline.si CSpline.ai CSpline.bi].
  pose proof (fun c i H => affine_slope x y alpha beta c i Hinc H Hlin) as Hslope.
  destruct Hrows as (H0 & Hin & Hlast).
  assert (Hs : forall i, (i < length x)%nat -> nth i s 0 == alpha).
  { intros i Hi.
    pose proof (dominance_zero (length x) (delta x) (fun j => nth j s 0 - alpha) HN
                  (fun j Hj => increasing_delta_pos x j Hinc Hj)) as D.
    cbv beta in D.
    assert (Ei : nth i s 0 - alpha == 0); [|lra].
    apply D; [| | |exact Hi].
    - rewrite (Hslope 3 0%nat ltac:(lia)) in H0. lra.
    - intros j Hj. specialize (Hin j Hj).
      assert (M0 : delta y j / delta x j == alpha).
      { transitivity (1 * delta y j / delta x j); [unfold Qdiv; ring|].
        rewrite (Hslope 1 j ltac:(lia)). ring. }
      assert (M1 : delta y (j + 1) / delta x (j + 1) == alpha).
      { transitivity (1 * delta y (j + 1) / delta x (j + 1)); [unfold Qdiv; ring|].
        rewrite (Hslope 1 (j + 1)%nat ltac:(lia)). ring. }
      rewrite M0, M1 in Hin.
      transitivity (delta x (j + 1) * nth j s 0
                    + 2 * (delta x j + delta x (j + 1)) * nth (j + 1) s 0
                    + delta x j * nth (j + 2) s 0
                    - 3 * (alpha * delta x (j + 1) + alpha * delta x j));
        [ring|]. rewrite Hin. ring.
    - rewrite (Hslope 3 (length x - 2)%nat ltac:(lia)) in Hlast. lra. }
  assert (Hcoef : forall i, (i + 1 < length x)%nat -> nth i a 0 == 0 /\ nth i b 0 == 0).
  { intros i Hi. destruct (Hab i ltac:(lia)) as [Ea Eb].
    pose proof (increasing_delta_pos x i Hinc Hi) as Hd.
    rewrite Ea, Eb.
    rewrite (Hslope 3 i Hi), (Hslope 2 i Hi).
    rewrite (Hs i ltac:(lia)), (Hs (S i) ltac:(lia)).
    split; field; lra. }
  split; [exact Hs|]. split; [exact Hcoef|].
  intros q. eexists. split; [apply scalar_call, W|].
  unfold eval_at.
  pose proof (segment_index_range (CSpline.mk x y s a b) q HN) as R.
  cbn [CSpline.xi] in R.
  set (j := Z.to_nat (segment_index (CSpline.mk x y s a b) q)).
  assert (Hj : (j + 1 < length x)%nat) by (unfold j; lia).
  unfold horner. cbn [CSpline.xi CSpline.yi CSpline.si CSpline.ai CSpline.bi].
  destruct (Hcoef j Hj) as [Za Zb].
  rewrite Za, Zb, (Hs j ltac:(lia)), (Hlin j ltac:(lia)). ring.
Qed.

Lemma C10_affine_reproduction_witness :
  exists sp,
    CSpline_Clasica.__init__ TridiagonalSolver.solve [0; 1; 3] [1; 3; 7] = Ok sp /\
    (forall i, (i < 3)%nat -> nth i (CSpline.si sp) 0 == 2) /\
    (forall i, (i + 1 < 3)%nat ->
       nth i (CSpline.ai sp) 0 == 0 /\ nth i (CSpline.bi sp) 0 == 0) /\
    forall q, exists v,
      CSpline.__call__ sp (np.scalar q) = Ok (np.scalar v) /\
      v == 2 * q + 1.
Proof.
  apply (C10_affine_reproduction TridiagonalSolver.solve [0; 1; 3] [1; 3; 7] 2 1).
  - simpl. repeat split.
  - simpl. lia.
  - reflexivity.
  - intros i Hi. destruct i as [|[|[|i]]]; try (vm_compute; reflexivity).
    simpl in Hi. lia.
  - exact reference_exact_on_137.
Defined.

(** * Further properties of the splines *)

Lemma insertion_between (x : list Q) (i : nat) (q : Q) :
  increasing x -> (i + 1 < length x)%nat ->
  nth i x 0 <= q -> q < nth (S i) x 0 ->
  np.searchsorted_right x q = S i.
Proof.
  intros Hinc Hi Hlo Hhi. pose proof (increasing_nth x Hinc) as Hmono.
  apply (insertion_right_unique x q); [apply searchsorted_right_spec, Hinc|].
  repeat split; [lia| |].
  - intros k Hk. destruct (Nat.eq_dec k i) as [->|Hne]; [exact Hlo|].
    apply Qle_trans with (nth i x 0); [|exact Hlo].
    apply Qlt_le_weak, Hmono. lia.
  - intros k Hk. destruct (Nat.eq_dec k (S i)) as [->|Hne]; [exact Hhi|].
    apply Qlt_trans with (nth (S i) x 0); [exact Hhi|apply Hmono; lia].
Qed.

Lemma eval_at_between (x y s a b : list Q) (i : nat) (q : Q) :
  increasing x -> (i + 1 < length x)%nat ->
  nth i x 0 <= q -> q < nth (S i) x 0 ->
  eval_at (CSpline.mk x y s a b) q
  = horner (CSpline.mk x y s a b) i (q - nth i x 0).
Proof.
  intros Hinc Hi Hlo Hhi. unfold eval_at, segment_index. cbn [CSpline.xi].
  rewrite (insertion_between x i q) by assumption.
  replace (Z.to_nat (np.clip 0 (Z.of_nat (length x) - 2) (Z.of_nat (S i) - 1)))
    with i by (unfold np.clip; lia).
  reflexivity.
Qed.

(** X1. Bracketing: a query [q] with [x_i <= q < x_(i+1)] is evaluated
    with the cubic of segment [i], at the offset [q - x_i]. *)
Theorem X1_bracketing (x y s : list Q) :
  increasing x -> (2 <= length x)%nat ->
  length y = length x -> length s = length x ->
  exists sp,
    CSpline.__init__ x y s = Ok sp /\
    forall i q, (i + 1 < length x)%nat ->
      nth i x 0 <= q -> q < nth (S i) x 0 ->
      CSpline.__call__ sp (np.scalar q)
        = Ok (np.scalar (horner sp i (q - nth i x 0))) /\
      horner sp i (q - nth i x 0) == segment sp i q.
Proof.
  intros Hinc HN Hy Hs.
  destruct (init_ok x y s Hy Hs) as (a & b & E & _).
  exists (CSpline.mk x y s a b). split; [exact E|].
  intros i q Hi Hlo Hhi. split.
  - rewrite scalar_call by (apply (init_well_formed x y s); assumption).
    rewrite (eval_at_between x y s a b i q) by assumption. reflexivity.
  - apply horner_segment. reflexivity.
Qed.

Lemma X1_bracketing_witness :
  exists sp,
    CSpline.__init__ [0; 1; 3] [0; 1; 0] [1; -1; 2] = Ok sp /\
    forall i q, (i + 1 < 3)%nat ->
      nth i [0; 1; 3] 0 <= q -> q < nth (S i) [0; 1; 3] 0 ->
      CSpline.__call__ sp (np.scalar q)
        = Ok (np.scalar (horner sp i (q - nth i [0; 1; 3] 0))) /\
      horner sp i (q - nth i [0; 1; 3] 0) == segment sp i q.
Proof.
  apply (X1_bracketing [0; 1; 3] [0; 1; 0] [1; -1; 2]).
  - simpl. repeat split.
  - simpl. lia.
  - reflexivity.
  - reflexivity.
Defined.

(** X2. Continuity of value and slope: at every interior node [x_k] of a
    spline built by [CSpline], the cubics of segments [k-1] and [k] have the
    same value and the same first derivative. *)
Theorem X2_c1_continuity (x y s : list Q) :
  increasing x -> (2 <= length x)%nat ->
  length y = length x -> length s = length x ->
  exists sp,
    CSpline.__init__ x y s = Ok sp /\
    forall k, (1 <= k <= length x - 2)%nat ->
      segment sp (k - 1) (nth k x 0) == segment sp k (nth k x 0) /\
      segment' sp (k - 1) (nth k x 0) == segment' sp k (nth k x 0).
Proof.
  intros Hinc HN Hy Hs.
  destruct (init_ok x y s Hy Hs) as (a & b & E & _).
  exists (CSpline.mk x y s a b). split; [exact E|].
  intros k Hk. destruct k as [|i]; [lia|].
  replace (S i - 1)%nat with i by lia.
  destruct (segment_hermite x y s _ i Hinc Hy Hs E ltac:(lia)) as (_ & _ & L0 & L1).
  destruct (segment_hermite x y s _ (S i) Hinc Hy Hs E ltac:(lia)) as (R0 & R1 & _).
  rewrite L0, L1, R0, R1. split; reflexivity.
Qed.

Lemma X2_c1_continuity_witness :
  exists sp,
    CSpline.__init__ [0; 1; 3] [0; 1; 0] [1; -1; 2] = Ok sp /\
    forall k, (1 <= k <= 3 - 2)%nat ->
      segment sp (k - 1) (nth k [0; 1; 3] 0) == segment sp k (nth k [0; 1; 3] 0) /\
      segment' sp (k - 1) (nth k [0; 1; 3] 0) == segment' sp k (nth k [0; 1; 3] 0).
Proof.
  apply (X2_c1_continuity [0; 1; 3] [0; 1; 0] [1; -1; 2]).
  - simpl. repeat split.
  - simpl. lia.
  - reflexivity.
  - reflexivity.
Defined.

(** X3. Natural ends: when the solver is exact, [CSpline_Clasica] returns
    a spline with all its arrays, whose segment cubics take the values [y]
    and the stored slopes at their ends, and whose second derivative is zero
    at the first node and at the last node. *)
Theorem X3_natural_ends (solve_banded : CSpline_Clasica.solver) (x y : list Q) :
  increasing x -> (2 <= length x)%nat -> length y = length x ->
  exact_on solve_banded x y ->
  exists sp,
    CSpline_Clasica.__init__ solve_banded x y = Ok sp /\
    well_formed sp /\ CSpline.xi sp = x /\ CSpline.yi sp = y /\
    (forall i, (i + 1 < length x)%nat ->
       segment sp i (nth i x 0) == nth i y 0 /\
       segment' sp i (nth i x 0) == nth i (CSpline.si sp) 0 /\
       segment sp i (nth (S i) x 0) == nth (S i) y 0 /\
       segment' sp i (nth (S i) x 0) == nth (S i) (CSpline.si sp) 0) /\
    segment'' sp 0 (nth 0 x 0) == 0 /\
    segment'' sp (length x - 2) (nth (length x - 1) x 0) == 0.
Proof.
  intros Hinc HN Hy Hex.
  destruct (clasica_ok solve_banded x y HN Hy Hex)
    as (s & sp & Hlen & Hrows & Einit & Ecl).
  exists sp. split; [exact Ecl|].
  split; [apply (init_well_formed x y s); assumption|].
  destruct (init_ok x y s Hy Hlen) as (a & b & E & _ & _ & Hab).
  assert (Esp : sp = CSpline.mk x y s a b) by congruence. subst sp.
  split; [reflexivity|]. split; [reflexivity|].
  split; [intros i Hi; exact (segment_hermite x y s _ i Hinc Hy Hlen E Hi)|].
  destruct Hrows as (H0 & _ & Hlast). cbv zeta in Hlast.
  split.
  - destruct (Hab 0%nat ltac:(lia)) as [Ea _].
    pose proof (increasing_delta_pos x 0 Hinc ltac:(lia)) as Hd.
    unfold segment'', segment_poly, pderiv.
    cbn [CSpline.xi CSpline.yi CSpline.si CSpline.ai CSpline.bi pderiv_from peval].
    rewrite Ea.
    change (inject_Z (Z.of_nat 1)) with 1. change (inject_Z (Z.of_nat 2)) with 2.
    set (d := delta x 0) in *. set (e := delta y 0) in *.
    set (s0 := nth 0 s 0) in *. set (s1 := nth 1 s 0) in *.
    assert (N0 : ~ d == 0) by lra.
    assert (E1 : s1 == 3 * e / d - 2 * s0) by (rewrite <- H0; ring).
    rewrite E1. field. exact N0.
  - destruct (Hab (length x - 2)%nat ltac:(lia)) as [Ea Eb].
    pose proof (increasing_delta_pos x (length x - 2) Hinc ltac:(lia)) as Hd.
    unfold segment'', segment_poly, pderiv.
    cbn [CSpline.xi CSpline.yi CSpline.si CSpline.ai CSpline.bi pderiv_from peval].
    rewrite Ea, Eb.
    replace (S (length x - 2)) with (length x - 1)%nat by lia.
    change (inject_Z (Z.of_nat 1)) with 1. change (inject_Z (Z.of_nat 2)) with 2.
    assert (Ed : nth (length x - 1) x 0 - nth (length x - 2) x 0 = delta x (length x - 2)).
    { unfold delta. replace (S (length x - 2)) with (length x - 1)%nat by lia. reflexivity. }
    rewrite Ed.
    set (d := delta x (length x - 2)) in *. set (e := delta y (length x - 2)) in *.
    set (s0 := nth (length x - 2) s 0) in *. set (s1 := nth (length x - 1) s 0) in *.
    assert (N0 : ~ d == 0) by lra.
    assert (E1 : s0 == 3 * e / d - 2 * s1) by (rewrite <- Hlast; ring).
    rewrite E1. field. exact N0.
Qed.

Lemma X3_natural_ends_witness :
  exists sp,
    CSpline_Clasica.__init__ TridiagonalSolver.solve [0; 1; 3] [0; 1; 0] = Ok sp /\
    well_formed sp /\ CSpline.xi sp = [0; 1; 3] /\ CSpline.yi sp = [0; 1; 0] /\
    (forall i, (i + 1 < 3)%nat ->
       segment sp i (nth i [0; 1; 3] 0) == nth i [0; 1; 0] 0 /\
       segment' sp i (nth i [0; 1; 3] 0) == nth i (CSpline.si sp) 0 /\
       segment sp i (nth (S i) [0; 1; 3] 0) == nth (S i) [0; 1; 0] 0 /\
       segment' sp i (nth (S i) [0; 1; 3] 0) == nth (S i) (CSpline.si sp) 0) /\
    segment'' sp 0 (nth 0 [0; 1; 3] 0) == 0 /\
    segment'' sp (3 - 2) (nth (3 - 1) [0; 1; 3] 0) == 0.
Proof.
  apply (X3_natural_ends TridiagonalSolver.solve [0; 1; 3] [0; 1; 0]).
  - simpl. repeat split.
  - simpl. lia.
  - reflexivity.
  - exact reference_exact_on_010.
Defined.

(** X4. One solution: for strictly increasing nodes the assembled system
    is strictly diagonally dominant, so two exact solutions of it have the
    same entries. *)
Theorem X4_unique_slopes (x y s s' : list Q)
        (A : CSpline_Clasica.banded) (p : list Q) :
  increasing x -> (2 <= length x)%nat -> length y = length x ->
  CSpline_Clasica.assemble x y = Ok (A, p) ->
  solves A p s -> solves A p s' ->
  length s = length s' /\
  forall i, (i < length x)%nat -> nth i s 0 == nth i s' 0.
Proof.
  intros Hinc HN Hy HA Hs Hs'.
  rewrite assemble_ok in HA by assumption. injection HA as <- <-.
  destruct (solves_rows x y s HN Hy Hs) as (Hl & H0 & Hin & Hlast).
  destruct (solves_rows x y s' HN Hy Hs') as (Hl' & H0' & Hin' & Hlast').
  cbv zeta in Hlast, Hlast'.
  split; [congruence|]. intros i Hi.
  assert (Ei : nth i s 0 - nth i s' 0 == 0); [|lra].
  apply (dominance_zero (length x) (delta x) (fun j => nth j s 0 - nth j s' 0) HN
           (fun j Hj => increasing_delta_pos x j Hinc Hj)); [| | |exact Hi].
  - lra.
  - intros j Hj. specialize (Hin j Hj). specialize (Hin' j Hj).
    transitivity
      ((delta x (j + 1) * nth j s 0
        + 2 * (delta x j + delta x (j + 1)) * nth (j + 1) s 0
        + delta x j * nth (j + 2) s 0)
       - (delta x (j + 1) * nth j s' 0
          + 2 * (delta x j + delta x (j + 1)) * nth (j + 1) s' 0
          + delta x j * nth (j + 2) s' 0)); [ring|].
    rewrite Hin, Hin'. ring.
  - lra.
Qed.

Lemma X4_unique_slopes_witness :
  length [5 # 4; 1 # 2; -1] = length [10 # 8; 2 # 4; -2 # 2] /\
  forall i, (i < 3)%nat ->
    nth i [5 # 4; 1 # 2; -1] 0 == nth i [10 # 8; 2 # 4; -2 # 2] 0.
Proof.
  eapply (X4_unique_slopes [0; 1; 3] [0; 1; 0]).
  - simpl. repeat split.
  - simpl. lia.
  - reflexivity.
  - vm_compute. reflexivity.
  - split; [reflexivity|].
    intros i Hi. destruct i as [|[|[|i]]]; try (vm_compute; reflexivity).
    simpl in Hi. lia.
  - split; [reflexivity|].
    intros i Hi. destruct i as [|[|[|i]]]; try (vm_compute; reflexivity).
    simpl in Hi. lia.
Defined.

(** X5. Cubics are reproduced: when the values and the slopes are those of
    a polynomial of degree at most three at the nodes, the spline built by
    [CSpline] evaluates to that polynomial at every query, inside the nodes
    or outside. *)
Theorem X5_cubic_reproduction (x y s : list Q) (c0 c1 c2 c3 : Q) :
  increasing x -> (2 <= length x)%nat ->
  length y = length x -> length s = length x ->
  (forall i, (i < length x)%nat ->
     nth i y 0 == peval [c0; c1; c2; c3] (nth i x 0) /\
     nth i s 0 == peval (pderiv [c0; c1; c2; c3]) (nth i x 0)) ->
  exists sp,
    CSpline.__init__ x y s = Ok sp /\
    forall q, exists v,
      CSpline.__call__ sp (np.scalar q) = Ok (np.scalar v) /\
      v == peval [c0; c1; c2; c3] q.
Proof.
  intros Hinc HN Hy Hs Hdata.
  destruct (init_ok x y s Hy Hs) as (a & b & E & Ha & Hb & Hab).
  exists (CSpline.mk x y s a b). split; [exact E|].
  assert (W : well_formed (CSpline.mk x y s a b))
    by (apply (init_well_formed x y s); assumption).
  intros q. eexists. split; [apply scalar_call, W|].
  unfold eval_at.
  pose proof (segment_index_range (CSpline.mk x y s a b) q HN) as R.
  cbn [CSpline.xi] in R.
  set (j := Z.to_nat (segment_index (CSpline.mk x y s a b) q)).
  assert (Hj : (j + 1 < length x)%nat) by (unfold j; lia).
  destruct (Hab j ltac:(lia)) as [Ea Eb].
  destruct (Hdata j ltac:(lia)) as [Y0 S0].
  destruct (Hdata (S j) ltac:(lia)) as [Y1 S1].
  pose proof (increasing_delta_pos x j Hinc Hj) as Hd.
  unfold horner. cbn [CSpline.xi CSpline.yi CSpline.si CSpline.ai CSpline.bi].
  rewrite Ea, Eb. unfold delta in *.
  rewrite Y0, Y1, S0, S1.
  unfold pderiv. cbn [pderiv_from peval].
  change (inject_Z (Z.of_nat 1)) with 1. change (inject_Z (Z.of_nat 2)) with 2.
  change (inject_Z (Z.of_nat 3)) with 3.
  set (u := nth j x 0) in *. set (w := nth (S j) x 0) in *.
  field. lra.
Qed.

Lemma X5_cubic_reproduction_witness :
  exists sp,
    CSpline.__init__ [0; 1; 3] [1; 3; 43] [-1; 6; 38] = Ok sp /\
    forall q, exists v,
      CSpline.__call__ sp (np.scalar q) = Ok (np.scalar v) /\
      v == peval [1; -1; 2; 1] q.
Proof.
  apply (X5_cubic_reproduction [0; 1; 3] [1; 3; 43] [-1; 6; 38] 1 (-1) 2 1).
  - simpl. repeat split.
  - simpl. lia.
  - reflexivity.
  - reflexivity.
  - intros i Hi. destruct i as [|[|[|i]]]; try (split; vm_compute; reflexivity).
    simpl in Hi. lia.
Defined.

Lemma clip_one_node (z : Z) : np.clip 0 (Z.of_nat 1 - 2) z = (-1)%Z.
Proof. unfold np.clip. lia. Qed.

(** Indexing with an array of [-1]: the last element of a nonempty array, and
    [IndexError] on an empty array unless there is nothing to look up. *)
Lemma take_last_of_one (u : Q) (idx : Q -> Z) (x : np.ndarray Q) :
  (forall q, idx q = (-1)%Z) ->
  np.take [u] (np.nd_map idx x) = Ok (np.nd_map (fun _ => u) x).
Proof.
  intros H. unfold np.take, np.nd_map. cbn [np.shape np.data].
  rewrite (mapM_ok _ (fun _ => u)).
  - cbn. rewrite map_map. reflexivity.
  - intros i Hi. apply in_map_iff in Hi. destruct Hi as [q [<- _]].
    rewrite H. reflexivity.
Qed.

Lemma take_of_none (idx : Q -> Z) (x : np.ndarray Q) :
  (forall q, idx q = (-1)%Z) -> np.data x <> [] ->
  np.take [] (np.nd_map idx x) = Raise IndexError.
Proof.
  intros H Hne. unfold np.take, np.nd_map. cbn [np.shape np.data].
  destruct (np.data x) as [|q l]; [contradiction|].
  cbn [map mapM]. rewrite H. reflexivity.
Qed.

Lemma nd_map2_empty (f : Q -> Q -> Q) (sh : list nat) :
  np.nd_map2 f (np.mk_ndarray sh []) (np.mk_ndarray sh []) = Ok (np.mk_ndarray sh []).
Proof.
  unfold np.nd_map2. cbn [np.shape np.data].
  destruct (list_eq_dec Nat.eq_dec sh sh) as [_|Hne]; [reflexivity|].
  exfalso. apply Hne. reflexivity.
Qed.

(** X6. One node: [CSpline] accepts a single node and stores no segment.
    Evaluating that spline raises [IndexError] for a scalar and for every
    array with at least one element; for an empty array it returns an empty
    array of the same shape. *)
Theorem X6_single_node (x y s : list Q) :
  length x = 1%nat -> length y = 1%nat -> length s = 1%nat ->
  exists sp,
    CSpline.__init__ x y s = Ok sp /\
    CSpline.ai sp = [] /\ CSpline.bi sp = [] /\
    (forall q, CSpline.__call__ sp (np.scalar q) = Raise IndexError) /\
    (forall qs, np.data qs <> [] -> CSpline.__call__ sp qs = Raise IndexError) /\
    (forall qs, np.data qs = [] ->
                CSpline.__call__ sp qs = Ok (np.mk_ndarray (np.shape qs) [])).
Proof.
  intros Hx Hy Hs.
  destruct x as [|x0 [|]]; try discriminate Hx.
  destruct y as [|y0 [|]]; try discriminate Hy.
  destruct s as [|s0 [|]]; try discriminate Hs.
  eexists. split; [reflexivity|]. split; [reflexivity|]. split; [reflexivity|].
  assert (Hfail : forall qs, np.data qs <> [] ->
            CSpline.__call__ (CSpline.mk [x0] [y0] [s0] [] []) qs = Raise IndexError).
  { intros qs Hne. unfold CSpline.__call__.
    cbn [CSpline.xi CSpline.yi CSpline.si CSpline.ai CSpline.bi length].
    rewrite nd_map_map.
    rewrite !take_last_of_one by (intros q; apply clip_one_node). cbn [bind].
    rewrite <- (nd_map_id qs) at 1. rewrite nd_map2_maps. cbn [bind].
    rewrite take_of_none by (intros q; apply clip_one_node) || exact Hne.
    reflexivity. }
  split; [intros q; apply Hfail; discriminate|]. split; [exact Hfail|].
  intros [sh d] Hd. cbn [np.data] in Hd. subst d.
  unfold CSpline.__call__, np.take, np.nd_map.
  cbn [np.shape np.data map mapM bind
       CSpline.xi CSpline.yi CSpline.si CSpline.ai CSpline.bi].
  repeat (rewrite nd_map2_empty; cbn [bind]).
  reflexivity.
Qed.

Lemma X6_single_node_witness :
  exists sp,
    CSpline.__init__ [2] [5] [0] = Ok sp /\
    CSpline.ai sp = [] /\ CSpline.bi sp = [] /\
    (forall q, CSpline.__call__ sp (np.scalar q) = Raise IndexError) /\
    (forall qs, np.data qs <> [] -> CSpline.__call__ sp qs = Raise IndexError) /\
    (forall qs, np.data qs = [] ->
                CSpline.__call__ sp qs = Ok (np.mk_ndarray (np.shape qs) [])).
Proof.
  apply (X6_single_node [2] [5] [0]); reflexivity.
Defined.

(** X7. Fewer than two nodes: [CSpline_Clasica] raises [IndexError] at its
    first assignment, whatever the values and the solver. *)
Theorem X7_clasica_needs_two_nodes
        (solve_banded : CSpline_Clasica.solver) (x y : list Q) :
  (length x <= 1)%nat ->
  CSpline_Clasica.__init__ solve_banded x y = Raise IndexError.
Proof.
  intros Hx. unfold CSpline_Clasica.__init__, CSpline_Clasica.assemble.
  destruct x as [|x0 [|x1 x]]; [reflexivity|reflexivity|cbn in Hx; lia].
Qed.

Lemma X7_clasica_needs_two_nodes_witness :
  CSpline_Clasica.__init__ TridiagonalSolver.solve [0] [0] = Raise IndexError.
Proof.
  apply (X7_clasica_needs_two_nodes TridiagonalSolver.solve [0] [0]).
  simpl. lia.
Defined.

Lemma eval_at_node (x y s : list Q) (sp : CSpline.t) (i : nat) :
  increasing x -> (2 <= length x)%nat ->
  length y = length x -> length s = length x ->
  CSpline.__init__ x y s = Ok sp -> (i < length x)%nat ->
  eval_at sp (nth i x 0) == nth i y 0.
Proof.
  intros Hinc HN Hy Hs E Hi.
  destruct (init_ok x y s Hy Hs) as (a & b & E' & _).
  assert (Esp : sp = CSpline.mk x y s a b) by congruence. subst sp.
  unfold eval_at, segment_index. cbn [CSpline.xi].
  rewrite index_at_node by assumption.
  rewrite (horner_segment _ x) by reflexivity.
  destruct (Nat.eq_dec i (length x - 1)) as [->|Hne].
  - replace (Nat.min (length x - 1) (length x - 2)) with (length x - 2)%nat by lia.
    destruct (segment_hermite x y s _ (length x - 2) Hinc Hy Hs E ltac:(lia))
      as (_ & _ & H & _).
    replace (S (length x - 2)) with (length x - 1)%nat in H by lia. exact H.
  - replace (Nat.min i (length x - 2)) with i by lia.
    destruct (segment_hermite x y s _ i Hinc Hy Hs E ltac:(lia)) as (H & _).
    exact H.
Qed.

(** X8. The spline of [CSpline_Clasica] interpolates whatever the slopes:
    as soon as the solver returns as many slopes as there are nodes, exact or
    not, evaluation at every node [x_i] returns [y_i]. *)
Theorem X8_clasica_interpolates
        (solve_banded : CSpline_Clasica.solver) (x y s : list Q)
        (A : CSpline_Clasica.banded) (p : list Q) :
  increasing x -> (2 <= length x)%nat -> length y = length x ->
  CSpline_Clasica.assemble x y = Ok (A, p) ->
  solve_banded A p = Ok s -> length s = length x ->
  exists sp,
    CSpline_Clasica.__init__ solve_banded x y = Ok sp /\
    forall i, (i < length x)%nat ->
      exists v,
        CSpline.__call__ sp (np.scalar (nth i x 0)) = Ok (np.scalar v) /\
        v == nth i y 0.
Proof.
  intros Hinc HN Hy HA Hsolve Hs.
  destruct (init_ok x y s Hy Hs) as (a & b & E & _).
  exists (CSpline.mk x y s a b). split.
  - unfold CSpline_Clasica.__init__. rewrite HA. cbn [bind fst snd].
    rewrite Hsolve. exact E.
  - intros i Hi. eexists. split.
    + apply scalar_call. apply (init_well_formed x y s); assumption.
    + apply (eval_at_node x y s); assumption.
Qed.

Lemma X8_clasica_interpolates_witness :
  exists sp,
    CSpline_Clasica.__init__ TridiagonalSolver.solve [0; 1; 3] [0; 1; 0] = Ok sp /\
    forall i, (i < 3)%nat ->
      exists v,
        CSpline.__call__ sp (np.scalar (nth i [0; 1; 3] 0)) = Ok (np.scalar v) /\
        v == nth i [0; 1; 0] 0.
Proof.
  eapply (X8_clasica_interpolates TridiagonalSolver.solve [0; 1; 3] [0; 1; 0]).
  - simpl. repeat split.
  - simpl. lia.
  - reflexivity.
  - vm_compute. reflexivity.
  - vm_compute. reflexivity.
  - reflexivity.
Defined.

(** X9. Local control: between [x_i] and [x_(i+1)] the value of a spline
    built by [CSpline] depends on the values and slopes at those two nodes
    only. *)
Theorem X9_locality (x y s y' s' : list Q) (i : nat) :
  increasing x -> (2 <= length x)%nat ->
  length y = length x -> length s = length x ->
  length y' = length x -> length s' = length x ->
  (i + 1 < length x)%nat ->
  nth i y 0 == nth i y' 0 -> nth (S i) y 0 == nth (S i) y' 0 ->
  nth i s 0 == nth i s' 0 -> nth (S i) s 0 == nth (S i) s' 0 ->
  exists sp sp',
    CSpline.__init__ x y s = Ok sp /\ CSpline.__init__ x y' s' = Ok sp' /\
    forall q, nth i x 0 <= q -> q < nth (S i) x 0 ->
      exists v v',
        CSpline.__call__ sp (np.scalar q) = Ok (np.scalar v) /\
        CSpline.__call__ sp' (np.scalar q) = Ok (np.scalar v') /\
        v == v'.
Proof.
  intros Hinc HN Hy Hs Hy' Hs' Hi Y0 Y1 S0 S1.
  destruct (init_ok x y s Hy Hs) as (a & b & E & _ & _ & Hab).
  destruct (init_ok x y' s' Hy' Hs') as (a' & b' & E' & _ & _ & Hab').
  exists (CSpline.mk x y s a b), (CSpline.mk x y' s' a' b').
  split; [exact E|]. split; [exact E'|].
  intros q Hlo Hhi. eexists. eexists.
  split; [apply scalar_call; apply (init_well_formed x y s); assumption|].
  split; [apply scalar_call; apply (init_well_formed x y' s'); assumption|].
  rewrite !(eval_at_between x _ _ _ _ i q) by assumption.
  destruct (Hab i ltac:(lia)) as [Ea Eb]. destruct (Hab' i ltac:(lia)) as [Ea' Eb'].
  unfold horner. cbn [CSpline.xi CSpline.yi CSpline.si CSpline.ai CSpline.bi].
  rewrite Ea, Eb, Ea', Eb'. unfold delta. rewrite Y0, Y1, S0, S1. reflexivity.
Qed.

Lemma X9_locality_witness :
  exists sp sp',
    CSpline.__init__ [0; 1; 3] [0; 1; 0] [1; -1; 2] = Ok sp /\
    CSpline.__init__ [0; 1; 3] [0; 1; 7] [1; -1; 5] = Ok sp' /\
    forall q, 0 <= q -> q < 1 ->
      exists v v',
        CSpline.__call__ sp (np.scalar q) = Ok (np.scalar v) /\
        CSpline.__call__ sp' (np.scalar q) = Ok (np.scalar v') /\
        v == v'.
Proof.
  apply (X9_locality [0; 1; 3] [0; 1; 0] [1; -1; 2] [0; 1; 7] [1; -1; 5] 0).
  - simpl. repeat split.
  - simpl. lia.
  - reflexivity.
  - reflexivity.
  - reflexivity.
  - reflexivity.
  - simpl. lia.
  - reflexivity.
  - reflexivity.
  - reflexivity.
  - reflexivity.
Defined.

(** X10. Superposition: on fixed nodes the evaluation is linear in the
    values and slopes. *)
Theorem X10_superposition (x y s y' s' y'' s'' : list Q) (c : Q) :
  increasing x -> (2 <= length x)%nat ->
  length y = length x -> length s = length x ->
  length y' = length x -> length s' = length x ->
  length y'' = length x -> length s'' = length x ->
  (forall i, (i < length x)%nat ->
     nth i y'' 0 == c * nth i y 0 + nth i y' 0 /\
     nth i s'' 0 == c * nth i s 0 + nth i s' 0) ->
  exists sp sp' sp'',
    CSpline.__init__ x y s = Ok sp /\ CSpline.__init__ x y' s' = Ok sp' /\
    CSpline.__init__ x y'' s'' = Ok sp'' /\
    forall q, exists v v' v'',
      CSpline.__call__ sp (np.scalar q) = Ok (np.scalar v) /\
      CSpline.__call__ sp' (np.scalar q) = Ok (np.scalar v') /\
      CSpline.__call__ sp'' (np.scalar q) = Ok (np.scalar v'') /\
      v'' == c * v + v'.
Proof.
  intros Hinc HN Hy Hs Hy' Hs' Hy'' Hs'' Hlin.
  destruct (init_ok x y s Hy Hs) as (a & b & E & _ & _ & Hab).
  destruct (init_ok x y' s' Hy' Hs') as (a' & b' & E' & _ & _ & Hab').
  destruct (init_ok x y'' s'' Hy'' Hs'') as (a'' & b'' & E'' & _ & _ & Hab'').
  exists (CSpline.mk x y s a b), (CSpline.mk x y' s' a' b'), (CSpline.mk x y'' s'' a'' b'').
  split; [exact E|]. split; [exact E'|]. split; [exact E''|].
  intros q. eexists. eexists. eexists.
  split; [apply scalar_call; apply (init_well_formed x y s); assumption|].
  split; [apply scalar_call; apply (init_well_formed x y' s'); assumption|].
  split; [apply scalar_call; apply (init_well_formed x y'' s''); assumption|].
  unfold eval_at, segment_index. cbn [CSpline.xi].
  set (j := Z.to_nat (np.clip 0 (Z.of_nat (length x) - 2)
                        (Z.of_nat (np.searchsorted_right x q) - 1))).
  assert (Hj : (j + 1 < length x)%nat) by (unfold j, np.clip; lia).
  destruct (Hab j ltac:(lia)) as [Ea Eb]. destruct (Hab' j ltac:(lia)) as [Ea' Eb'].
  destruct (Hab'' j ltac:(lia)) as [Ea'' Eb''].
  destruct (Hlin j ltac:(lia)) as [Y0 S0]. destruct (Hlin (S j) ltac:(lia)) as [Y1 S1].
  pose proof (increasing_delta_pos x j Hinc Hj) as Hd.
  unfold horner. cbn [CSpline.xi CSpline.yi CSpline.si CSpline.ai CSpline.bi].
  rewrite Ea, Eb, Ea', Eb', Ea'', Eb''. unfold delta in *.
  rewrite Y0, Y1, S0, S1.
  set (u := nth j x 0) in *. set (w := nth (S j) x 0) in *.
  field. lra.
Qed.

Lemma X10_superposition_witness :
  exists sp sp' sp'',
    CSpline.__init__ [0; 1; 3] [0; 1; 0] [1; -1; 2] = Ok sp /\
    CSpline.__init__ [0; 1; 3] [1; 1; 1] [0; 0; 0] = Ok sp' /\
    CSpline.__init__ [0; 1; 3] [1; 3; 1] [2; -2; 4] = Ok sp'' /\
    forall q, exists v v' v'',
      CSpline.__call__ sp (np.scalar q) = Ok (np.scalar v) /\
      CSpline.__call__ sp' (np.scalar q) = Ok (np.scalar v') /\
      CSpline.__call__ sp'' (np.scalar q) = Ok (np.scalar v'') /\
      v'' == 2 * v + v'.
Proof.
  apply (X10_superposition [0; 1; 3] [0; 1; 0] [1; -1; 2] [1; 1; 1] [0; 0; 0]
           [1; 3; 1] [2; -2; 4] 2).
  - simpl. repeat split.
  - simpl. lia.
  - reflexivity.
  - reflexivity.
  - reflexivity.
  - reflexivity.
  - reflexivity.
  - reflexivity.
  - intros i Hi. destruct i as [|[|[|i]]]; try (split; vm_compute; reflexivity).
    simpl in Hi. lia.
Defined.

(** * Properties of the integrators *)

Import EcuacionesDiferencialesOrdinarias.

Lemma same_shape_pair :
  same_shape [2%nat] [np.mk_ndarray [2%nat] [1; 2]; np.mk_ndarray [2%nat] [3; 4]].
Proof.
  split; [discriminate|].
  intros r0 [<-|[<-|[]]]; split; reflexivity.
Defined.

Lemma respects_eq_spring : respects_eq (fun u _ => - (4 * u)).
Proof. intros r r' s s' Hr _. rewrite Hr. reflexivity. Defined.

Lemma filled_length (F : nat -> Q) (k n : nat) :
  (k <= n)%nat -> length (filled F k n) = n.
Proof.
  intros H. unfold filled. rewrite length_app, length_map, length_seq, repeat_length. lia.
Qed.

Lemma filled_nth (F : nat -> Q) (k n j : nat) :
  (j < k)%nat -> nth j (filled F k n) 0 = F j.
Proof.
  intros H. unfold filled. rewrite app_nth1 by (rewrite length_map, length_seq; lia).
  rewrite (nth_indep _ 0 (F 0%nat)) by (rewrite length_map, length_seq; lia).
  rewrite map_nth, seq_nth by lia. reflexivity.
Qed.

Lemma filled_all (F : nat -> Q) (n : nat) : filled F n n = map F (seq 0 n).
Proof. unfold filled. rewrite Nat.sub_diag. apply app_nil_r. Qed.

Lemma filled_put (F : nat -> Q) (k n : nat) (v : Q) :
  (k < n)%nat -> v = F k -> np.put k v (filled F k n) = filled F (S k) n.
Proof.
  intros H ->. unfold np.put, filled.
  assert (L : length (map F (seq 0 k)) = k) by (rewrite length_map, length_seq; lia).
  rewrite firstn_app, L, Nat.sub_diag, firstn_O, app_nil_r.
  rewrite firstn_all2 by lia.
  rewrite skipn_app, L. rewrite (skipn_all2 (map F (seq 0 k))) by lia.
  replace (S k - k)%nat with 1%nat by lia.
  replace (n - k)%nat with (S (n - S k)) by lia. cbn [repeat skipn app].
  rewrite seq_S, map_app, <- app_assoc. reflexivity.
Qed.

Lemma item_nth (a : list Q) (n : nat) :
  (n < length a)%nat -> item a n = Return (nth n a 0).
Proof.
  intros H. unfold item, np.get_item.
  rewrite norm_index_nonneg by lia. cbn. rewrite Nat2Z.id. reflexivity.
Qed.

Lemma item_out (a : list Q) (n : nat) :
  (length a <= n)%nat -> item a n = Throw (Builtin IndexError).
Proof.
  intros H. unfold item, np.get_item, np.norm_index.
  destruct (Z.leb_spec 0 (Z.of_nat n)); [|lia].
  destruct (Z.ltb_spec (Z.of_nat n) (Z.of_nat (length a))); [lia|]. cbn [andb].
  destruct (Z.leb_spec (- Z.of_nat (length a)) (Z.of_nat n)); cbn [andb];
    [destruct (Z.ltb_spec (Z.of_nat n) 0); [lia|]|]; reflexivity.
Qed.

Lemma set_at_put (a : list Q) (n : nat) (v : Q) :
  (n < length a)%nat -> set_at a n v = Return (np.put n v a).
Proof.
  intros H. unfold set_at, np.set_item.
  rewrite norm_index_nonneg by lia. cbn. rewrite Nat2Z.id. reflexivity.
Qed.

Lemma item_filled (F : nat -> Q) (k n j : nat) :
  (j < k)%nat -> (k <= n)%nat -> item (filled F k n) j = Return (F j).
Proof.
  intros Hj Hk. rewrite item_nth by (rewrite filled_length; lia).
  rewrite filled_nth by lia. reflexivity.
Qed.

Lemma set_at_filled (F : nat -> Q) (k n : nat) (v : Q) :
  (k < n)%nat -> v = F k -> set_at (filled F k n) k v = Return (filled F (S k) n).
Proof.
  intros Hk Hv. rewrite set_at_put by (rewrite filled_length; lia).
  rewrite filled_put by assumption. reflexivity.
Qed.

Lemma item_diff (t : list Q) (n : nat) :
  (n + 1 < length t)%nat -> item (np.diff t) n = Return (delta t n).
Proof.
  intros H. rewrite item_nth by (rewrite diff_length; lia).
  rewrite diff_nth by lia. reflexivity.
Qed.

(** A loop invariant: [P n s] holds of the variables before iteration [n]. *)
Lemma for_each_invariant {S : Type} (body : nat -> S -> py S) (P : nat -> S -> Prop)
      (m k : nat) (s : S) :
  (forall n s, (k <= n < k + m)%nat -> P n s ->
               exists s', body n s = Return s' /\ P (Datatypes.S n) s') ->
  P k s ->
  exists s', for_each body (seq k m) s = Return s' /\ P (k + m)%nat s'.
Proof.
  revert k s. induction m as [|m IH]; intros k s Hbody H0.
  - exists s. split; [reflexivity|]. rewrite Nat.add_0_r. exact H0.
  - destruct (Hbody k s ltac:(lia) H0) as (s1 & E1 & H1).
    destruct (IH (Datatypes.S k) s1) as (s' & E & H').
    + intros n s2 Hn. apply Hbody. lia.
    + exact H1.
    + exists s'. split.
      * cbn [seq for_each]. rewrite E1. cbn [py_bind]. exact E.
      * replace (k + Datatypes.S m)%nat with (Datatypes.S k + m)%nat by lia. exact H'.
Qed.

Lemma range_size (n : nat) : range (Z.of_nat n - 1) = seq 0 (n - 1).
Proof. unfold range. f_equal. lia. Qed.

Lemma condiciones_one (r0 : Q) (F : nat -> Q) (n : nat) :
  (1 <= n)%nat -> F 0%nat = r0 ->
  _condiciones_iniciales (Int n) [np.scalar r0]
  = Return (One (np.mk_ndarray [n] (filled F 1 n))).
Proof.
  intros Hn HF. destruct n as [|n]; [lia|].
  unfold _condiciones_iniciales. cbn [map np.shape np.scalar nodup length Nat.ltb Nat.leb].
  cbn [lift np.get_item np.norm_index length Z.of_nat Z.leb Z.ltb Z.compare andb
       Pos.of_succ_nat bind py_bind Z.to_nat nth py_mapM zeros_steps set_first_row
       np.shape np.data prod_shape fold_right].
  destruct (list_eq_dec Nat.eq_dec [] []) as [_|Hne]; [|contradiction].
  cbn [py_bind]. do 3 f_equal.
  unfold np.splice, np.zeros, filled. rewrite Nat.mul_1_r.
  cbn [firstn app skipn repeat Nat.add seq map Nat.sub]. rewrite HF, Nat.sub_0_r.
  reflexivity.
Qed.

Lemma condiciones_two (r0 v0 : Q) (R V : nat -> Q) (n : nat) :
  (1 <= n)%nat -> R 0%nat = r0 -> V 0%nat = v0 ->
  _condiciones_iniciales (Int n) [np.scalar r0; np.scalar v0]
  = Return (Many [np.mk_ndarray [n] (filled R 1 n); np.mk_ndarray [n] (filled V 1 n)]).
Proof.
  intros Hn HR HV. destruct n as [|n]; [lia|].
  unfold _condiciones_iniciales. cbn [map np.shape np.scalar].
  cbn [nodup]. destruct (in_dec (list_eq_dec Nat.eq_dec) [] [[]]) as [_|Hn'];
    [|exfalso; apply Hn'; left; reflexivity].
  cbn [nodup length Nat.ltb Nat.leb].
  cbn [lift np.get_item np.norm_index length Z.of_nat Z.leb Z.ltb Z.compare andb
       Pos.of_succ_nat bind py_bind Z.to_nat nth py_mapM zeros_steps set_first_row
       np.shape np.data prod_shape fold_right].
  destruct (list_eq_dec Nat.eq_dec [] []) as [_|Hne]; [|contradiction].
  cbn [py_bind]. do 2 f_equal.
  unfold np.splice, np.zeros, filled. rewrite Nat.mul_1_r.
  cbn [firstn app skipn repeat Nat.add seq map Nat.sub]. rewrite HR, HV, Nat.sub_0_r.
  reflexivity.
Qed.

Lemma Euler_trajectory (f : callback) (r0 : Q) (t : list Q) :
  (1 <= length t)%nat ->
  Euler f r0 t
  = Return (map (euler_at f r0 (step_of t) (time_of t)) (seq 0 (length t))).
Proof.
  intros HN. unfold Euler.
  set (F := euler_at f r0 (step_of t) (time_of t)).
  rewrite (condiciones_one r0 F) by (assumption || reflexivity).
  cbn [py_bind one_array np.data]. rewrite range_size.
  match goal with |- for_each ?b _ _ = _ => set (body := b) end.
  destruct (for_each_invariant body
              (fun n r => r = filled F (S n) (length t)) (length t - 1) 0
              (filled F 1 (length t))) as (r & E & ->).
  - intros n r Hn ->. eexists. split; [|reflexivity]. unfold body.
    rewrite item_filled by lia. cbn [py_bind].
    rewrite item_nth by (rewrite diff_length; lia). cbn [py_bind].
    rewrite item_nth by lia. cbn [py_bind].
    replace (n + 1)%nat with (S n) by lia.
    apply set_at_filled; [lia|reflexivity].
  - reflexivity.
  - rewrite E. replace (S (0 + (length t - 1))) with (length t) by lia.
    rewrite filled_all. reflexivity.
Qed.

Lemma RungeKutta4_trajectory (f : callback) (r0 : Q) (t : list Q) :
  (1 <= length t)%nat ->
  RungeKutta4 f r0 t
  = Return (map (rk4_at f r0 (step_of t) (time_of t)) (seq 0 (length t))).
Proof.
  intros HN. unfold RungeKutta4.
  set (F := rk4_at f r0 (step_of t) (time_of t)).
  rewrite (condiciones_one r0 F) by (assumption || reflexivity).
  cbn [py_bind one_array np.data]. rewrite range_size.
  match goal with |- for_each ?b _ _ = _ => set (body := b) end.
  destruct (for_each_invariant body
              (fun n r => r = filled F (S n) (length t)) (length t - 1) 0
              (filled F 1 (length t))) as (r & E & ->).
  - intros n r Hn ->. eexists. split; [|reflexivity]. unfold body.
    rewrite item_nth by (rewrite diff_length; lia). cbn [py_bind].
    rewrite item_filled by lia. cbn [py_bind].
    rewrite item_nth by lia. cbn [py_bind].
    replace (n + 1)%nat with (S n) by lia.
    apply set_at_filled; [lia|reflexivity].
  - reflexivity.
  - rewrite E. replace (S (0 + (length t - 1))) with (length t) by lia.
    rewrite filled_all. reflexivity.
Qed.

Lemma SaltoRana_trajectory (a : callback) (r0 v0 : Q) (t : list Q) :
  (1 <= length t)%nat ->
  let L := leap_at a r0 v0 (step_of t) (time_of t) in
  SaltoRana a r0 v0 t
  = Return (map (fun n => fst (L n)) (seq 0 (length t)),
            map (fun n => snd (L n)) (seq 0 (length t))).
Proof.
  intros HN L. unfold SaltoRana.
  rewrite (condiciones_two r0 v0 (fun n => fst (L n)) (fun n => snd (L n)))
    by (assumption || reflexivity).
  cbn [py_bind two_arrays np.data fst snd].
  rewrite item_nth by lia. cbn [py_bind]. rewrite range_size.
  match goal with |- py_bind (for_each ?b _ _) _ = _ => set (body := b) end.
  destruct (for_each_invariant body
              (fun n st =>
                 st = (filled (fun n => fst (L n)) (S n) (length t),
                       filled (fun n => snd (L n)) (S n) (length t),
                       a (fst (L n)) (time_of t n)))
              (length t - 1) 0
              (filled (fun n => fst (L n)) 1 (length t),
               filled (fun n => snd (L n)) 1 (length t),
               a r0 (nth 0 t 0))) as (st & E & ->).
  - intros n st Hn ->. eexists. split; [|reflexivity]. unfold body.
    rewrite item_filled by lia. cbn [py_bind].
    rewrite item_nth by (rewrite diff_length; lia). cbn [py_bind].
    rewrite item_filled by lia. cbn [py_bind].
    replace (n + 1)%nat with (S n) by lia.
    rewrite (set_at_filled (fun n => fst (L n)) (S n)) by (lia || reflexivity).
    cbn [py_bind].
    rewrite item_filled by lia. cbn [py_bind].
    rewrite item_nth by lia. cbn [py_bind].
    rewrite (set_at_filled (fun n => snd (L n)) (S n)) by (lia || reflexivity).
    reflexivity.
  - reflexivity.
  - rewrite E. cbn [py_bind fst snd].
    replace (S (0 + (length t - 1))) with (length t) by lia.
    rewrite !filled_all. reflexivity.
Qed.

Lemma map_seq_nth (F : nat -> Q) (n j : nat) :
  (j < n)%nat -> nth j (map F (seq 0 n)) 0 = F j.
Proof.
  intros H. rewrite <- filled_all. apply filled_nth, H.
Qed.

Lemma step_of_delta (t : list Q) (n : nat) :
  (n + 1 < length t)%nat -> step_of t n = delta t n.
Proof. intros H. unfold step_of. apply diff_nth, H. Qed.

Lemma uniform_times_length (t0 dt : Q) (steps : Z) :
  length (uniform_times t0 dt steps) = Z.to_nat steps.
Proof.
  unfold uniform_times, segundo_orden.arange, range.
  rewrite !length_map, length_seq. reflexivity.
Qed.

Lemma uniform_times_nth (t0 dt : Q) (steps : Z) (n : nat) :
  (n < Z.to_nat steps)%nat ->
  nth n (uniform_times t0 dt steps) 0 = t0 + inject_Z (Z.of_nat n) * dt.
Proof.
  intros H. unfold uniform_times, segundo_orden.arange, range. rewrite map_map.
  rewrite (nth_indep _ 0 (t0 + inject_Z (Z.of_nat 0) * dt))
    by (rewrite length_map, length_seq; exact H).
  rewrite (map_nth (fun k => t0 + inject_Z (Z.of_nat k) * dt)).
  rewrite seq_nth by exact H. reflexivity.
Qed.

Lemma zeros_filled (F : nat -> Q) (n : nat) : np.zeros n = filled F 0 n.
Proof. unfold filled, np.zeros. cbn. rewrite Nat.sub_0_r. reflexivity. Qed.

Lemma segundo_SaltoRana_trajectory (a : Q -> Q -> Q) (r0 v0 t0 dt : Q) (steps : Z) :
  (1 <= steps)%Z ->
  let L := leap_at a r0 v0 (fun _ => dt) (uniform_time t0 dt steps) in
  segundo_orden.SaltoRana a r0 v0 t0 dt steps
  = Return (uniform_times t0 dt steps,
            map (fun n => fst (L n)) (seq 0 (Z.to_nat steps)),
            map (fun n => snd (L n)) (seq 0 (Z.to_nat steps))).
Proof.
  intros HN L. unfold segundo_orden.SaltoRana, segundo_orden.zeros.
  destruct (Z.ltb_spec steps 0); [lia|]. cbn [py_bind].
  set (N := Z.to_nat steps). assert (HN' : (1 <= N)%nat) by (unfold N; lia).
  rewrite (zeros_filled (fun n => fst (L n))) at 1.
  rewrite (set_at_filled (fun n => fst (L n)) 0) by (lia || reflexivity).
  cbn [py_bind].
  rewrite (zeros_filled (fun n => snd (L n))).
  rewrite (set_at_filled (fun n => snd (L n)) 0) by (lia || reflexivity).
  cbn [py_bind].
  replace (range (steps - 1)) with (seq 0 (N - 1)) by (unfold range, N; f_equal; lia).
  fold (uniform_times t0 dt steps).
  match goal with |- py_bind (for_each ?b _ _) _ = _ => set (body := b) end.
  destruct (for_each_invariant body
              (fun n st =>
                 st = (filled (fun n => fst (L n)) (S n) N,
                       filled (fun n => snd (L n)) (S n) N,
                       a (fst (L n)) (uniform_time t0 dt steps n)))
              (N - 1) 0
              (filled (fun n => fst (L n)) 1 N,
               filled (fun n => snd (L n)) 1 N,
               a r0 t0)) as (st & E & ->).
  - intros n st Hn ->. eexists. split; [|reflexivity]. unfold body.
    rewrite item_filled by lia. cbn [py_bind].
    rewrite item_filled by lia. cbn [py_bind].
    replace (n + 1)%nat with (S n) by lia.
    rewrite (set_at_filled (fun n => fst (L n)) (S n)) by (lia || reflexivity).
    cbn [py_bind].
    rewrite item_filled by lia. cbn [py_bind].
    rewrite item_nth by (rewrite uniform_times_length; fold N; lia). cbn [py_bind].
    rewrite (set_at_filled (fun n => snd (L n)) (S n)) by (lia || reflexivity).
    reflexivity.
  - reflexivity.
  - rewrite E. cbn [py_bind fst snd].
    replace (S (0 + (N - 1))) with N by lia.
    rewrite !filled_all. reflexivity.
Qed.

(** ** Initial conditions *)

Lemma nodup_two {A : Type} (dec : forall x y : A, {x = y} + {x <> y})
      (l : list A) (a b : A) :
  In a l -> In b l -> a <> b -> (1 < length (nodup dec l))%nat.
Proof.
  intros Ha Hb Hab.
  apply (nodup_In dec) in Ha. apply (nodup_In dec) in Hb.
  destruct (nodup dec l) as [|u [|w l']]; cbn [length]; [contradiction| |lia].
  destruct Ha as [<-|[]]. destruct Hb as [<-|[]]. contradiction.
Qed.

Lemma nodup_constant {A : Type} (dec : forall x y : A, {x = y} + {x <> y})
      (l : list A) (a : A) :
  l <> [] -> (forall x, In x l -> x = a) -> nodup dec l = [a].
Proof.
  induction l as [|u l IH]; intros Hne Hall; [contradiction|].
  assert (u = a) by (apply Hall; left; reflexivity). subst u.
  cbn [nodup]. destruct (in_dec dec a l) as [Hin|Hnin].
  - apply IH; [intros ->; contradiction|intros x Hx; apply Hall; right; exact Hx].
  - destruct l as [|w l]; [reflexivity|].
    exfalso. apply Hnin. left. apply Hall. right. left. reflexivity.
Qed.

Lemma skipn_repeat_zero (k n : nat) : skipn k (repeat 0 n) = repeat 0 (n - k).
Proof.
  revert n. induction k as [|k IH]; intros n; [rewrite Nat.sub_0_r; reflexivity|].
  destruct n as [|n]; [reflexivity|]. cbn [repeat skipn]. rewrite IH. reflexivity.
Qed.

Lemma condiciones_head (steps : steps_arg) (shape : list nat)
      (args : list (np.ndarray Q)) :
  same_shape shape args ->
  _condiciones_iniciales steps args
  = (arrays <~ py_mapM (fun r0 => r <~ zeros_steps steps shape ;; set_first_row r r0) args ;;
     Return (match arrays with [r] => One r | _ => Many arrays end)).
Proof.
  intros [Hne Hall]. unfold _condiciones_iniciales.
  rewrite (nodup_constant _ (map np.shape args) shape).
  - cbn [length Nat.ltb Nat.leb].
    destruct args as [|r0 args]; [contradiction|].
    cbn [map]. rewrite (proj1 (Hall r0 ltac:(left; reflexivity))). reflexivity.
  - destruct args; [contradiction|discriminate].
  - intros x Hx. apply in_map_iff in Hx. destruct Hx as (r0 & <- & Hin).
    apply Hall, Hin.
Qed.

(** X11. Initial conditions of different shapes: as soon as two of the
    arguments of [_condiciones_iniciales] have different shapes, it raises
    [ValueError], whatever the number of steps. *)
Theorem X11_condiciones_shape_mismatch
        (steps : steps_arg) (args : list (np.ndarray Q)) (a b : np.ndarray Q) :
  In a args -> In b args -> np.shape a <> np.shape b ->
  _condiciones_iniciales steps args = Throw (Builtin ValueError).
Proof.
  intros Ha Hb Hab. unfold _condiciones_iniciales.
  pose proof (nodup_two (list_eq_dec Nat.eq_dec) (map np.shape args)
                (np.shape a) (np.shape b)
                (in_map np.shape _ _ Ha) (in_map np.shape _ _ Hb) Hab) as H.
  destruct (Nat.ltb_spec 1 (length (nodup (list_eq_dec Nat.eq_dec) (map np.shape args))));
    [reflexivity|lia].
Qed.

Lemma X11_condiciones_shape_mismatch_witness :
  _condiciones_iniciales (Int 4) [np.mk_ndarray [2%nat] [1; 2]; np.scalar 3]
  = Throw (Builtin ValueError).
Proof.
  apply (X11_condiciones_shape_mismatch (Int 4)
           [np.mk_ndarray [2%nat] [1; 2]; np.scalar 3]
           (np.mk_ndarray [2%nat] [1; 2]) (np.scalar 3)).
  - left. reflexivity.
  - right. left. reflexivity.
  - discriminate.
Defined.

(** X12. Initial arrays: for at least one step and arguments of one shape,
    [_condiciones_iniciales] returns for each argument an array of [steps]
    rows, the first row the argument and all other entries zero; the array
    itself when there is one argument, the list of arrays otherwise. *)
Theorem X12_condiciones_arrays
        (steps : nat) (shape : list nat) (args : list (np.ndarray Q)) :
  (1 <= steps)%nat -> same_shape shape args ->
  _condiciones_iniciales (Int steps) args
  = Return (match map (initial_array steps) args with
            | [r] => One r
            | rs => Many rs
            end).
Proof.
  intros Hn Hs. rewrite (condiciones_head _ shape) by exact Hs.
  destruct Hs as [_ Hall].
  assert (E : py_mapM (fun r0 => r <~ zeros_steps (Int steps) shape ;; set_first_row r r0) args
              = Return (map (initial_array steps) args)).
  { induction args as [|r0 args IH]; [reflexivity|].
    cbn [py_mapM map]. rewrite IH by (intros; apply Hall; right; assumption).
    destruct (Hall r0 ltac:(left; reflexivity)) as [Hsh Hlen].
    destruct steps as [|m]; [lia|].
    cbn [zeros_steps py_bind set_first_row np.shape np.data].
    destruct (list_eq_dec Nat.eq_dec (np.shape r0) shape) as [_|Hne]; [|contradiction].
    cbn [py_bind]. do 2 f_equal. unfold initial_array. rewrite Hsh. f_equal.
    unfold np.splice, np.zeros. cbn [firstn app Nat.add].
    rewrite skipn_repeat_zero, Hlen. do 2 f_equal. cbn [Nat.sub]. lia. }
  rewrite E. cbn [py_bind].
  destruct (map (initial_array steps) args) as [|r [|r' rs]]; reflexivity.
Qed.

Lemma X12_condiciones_arrays_witness :
  _condiciones_iniciales (Int 3)
    [np.mk_ndarray [2%nat] [1; 2]; np.mk_ndarray [2%nat] [3; 4]]
  = Return (match map (initial_array 3)
                    [np.mk_ndarray [2%nat] [1; 2]; np.mk_ndarray [2%nat] [3; 4]] with
            | [r] => One r
            | rs => Many rs
            end).
Proof.
  apply (X12_condiciones_arrays 3 [2%nat]).
  - lia.
  - exact same_shape_pair.
Defined.

(** X13. Edge cases of [_condiciones_iniciales]: zero steps raise
    [IndexError] at the assignment of the first row, a tuple in the place of
    the number of steps raises [TypeError], and no initial condition at all
    raises [IndexError]. *)
Theorem X13_condiciones_errors (shape : list nat) (args : list (np.ndarray Q)) :
  same_shape shape args ->
  _condiciones_iniciales (Int 0) args = Throw (Builtin IndexError) /\
  (forall l, _condiciones_iniciales (Tuple l) args = Throw TypeError) /\
  (forall steps, _condiciones_iniciales steps [] = Throw (Builtin IndexError)).
Proof.
  intros Hs. split; [|split].
  - rewrite (condiciones_head _ shape) by exact Hs.
    destruct Hs as [Hne _]. destruct args as [|r0 args]; [contradiction|]. reflexivity.
  - intros l. rewrite (condiciones_head _ shape) by exact Hs.
    destruct Hs as [Hne _]. destruct args as [|r0 args]; [contradiction|]. reflexivity.
  - intros steps. reflexivity.
Qed.

Lemma X13_condiciones_errors_witness :
  _condiciones_iniciales (Int 0)
    [np.mk_ndarray [2%nat] [1; 2]; np.mk_ndarray [2%nat] [3; 4]]
  = Throw (Builtin IndexError) /\
  (forall l, _condiciones_iniciales (Tuple l)
               [np.mk_ndarray [2%nat] [1; 2]; np.mk_ndarray [2%nat] [3; 4]]
             = Throw TypeError) /\
  (forall steps, _condiciones_iniciales steps [] = Throw (Builtin IndexError)).
Proof.
  apply (X13_condiciones_errors [2%nat]). exact same_shape_pair.
Defined.

(** ** The integrators *)

(** X14. Degenerate time grids: on an empty grid [Euler], [RungeKutta4] and
    [SaltoRana] raise [IndexError]; on a grid of one time they return the
    initial conditions, without a step. *)
Theorem X14_degenerate_grids (f a : callback) (r0 v0 t0 : Q) :
  (Euler f r0 [] = Throw (Builtin IndexError) /\
   RungeKutta4 f r0 [] = Throw (Builtin IndexError) /\
   SaltoRana a r0 v0 [] = Throw (Builtin IndexError)) /\
  (Euler f r0 [t0] = Return [r0] /\
   RungeKutta4 f r0 [t0] = Return [r0] /\
   SaltoRana a r0 v0 [t0] = Return ([r0], [v0])).
Proof. repeat split. Qed.

(** X15. [Euler] on a nonempty grid returns as many values as times,
    starting at [r0], and every value follows from the one before by
    [r[n+1] = r[n] + (t[n+1] - t[n]) f(r[n], t[n])]: no later iteration
    touches an entry once written. *)
Theorem X15_Euler_recurrence (f : callback) (r0 : Q) (t : list Q) :
  (1 <= length t)%nat ->
  exists r,
    Euler f r0 t = Return r /\ length r = length t /\ nth 0 r 0 = r0 /\
    forall n, (n + 1 < length t)%nat ->
      nth (S n) r 0 = nth n r 0 + delta t n * f (nth n r 0) (nth n t 0).
Proof.
  intros HN. eexists. split; [apply Euler_trajectory, HN|].
  split; [rewrite length_map, length_seq; reflexivity|].
  split; [rewrite map_seq_nth by lia; reflexivity|].
  intros n Hn. rewrite !map_seq_nth by lia. cbn [euler_at].
  rewrite step_of_delta by lia. reflexivity.
Qed.

Lemma X15_Euler_recurrence_witness :
  exists r,
    Euler (fun u s => u * s) 1 [0; 1; 3] = Return r /\ length r = 3%nat /\
    nth 0 r 0 = 1 /\
    forall n, (n + 1 < 3)%nat ->
      nth (S n) r 0
      = nth n r 0 + delta [0; 1; 3] n * (nth n r 0 * nth n [0; 1; 3] 0).
Proof.
  apply (X15_Euler_recurrence (fun u s => u * s) 1 [0; 1; 3]). simpl. lia.
Defined.

(** X16. [Euler] is exact for a constant slope: with [f = c] the values
    are [r0 + c (t[n] - t[0])], on any grid. *)
Theorem X16_Euler_constant_slope (c r0 : Q) (t : list Q) :
  (1 <= length t)%nat ->
  exists r,
    Euler (fun _ _ => c) r0 t = Return r /\ length r = length t /\
    forall n, (n < length t)%nat ->
      nth n r 0 == r0 + c * (nth n t 0 - nth 0 t 0).
Proof.
  intros HN. eexists. split; [apply Euler_trajectory, HN|].
  split; [rewrite length_map, length_seq; reflexivity|].
  intros n Hn. rewrite map_seq_nth by lia.
  induction n as [|n IH]; [cbn [euler_at]; ring|].
  cbn [euler_at]. rewrite IH by lia. rewrite step_of_delta by lia.
  unfold delta, time_of. ring.
Qed.

Lemma X16_Euler_constant_slope_witness :
  exists r,
    Euler (fun _ _ => 2) 1 [0; 1; 3] = Return r /\ length r = 3%nat /\
    forall n, (n < 3)%nat ->
      nth n r 0 == 1 + 2 * (nth n [0; 1; 3] 0 - 0).
Proof.
  apply (X16_Euler_constant_slope 2 1 [0; 1; 3]). simpl. lia.
Defined.

(** X17. [RungeKutta4] is exact for a right-hand side that is a polynomial
    of degree at most three in the time alone: the values are
    [r0 + P(t[n]) - P(t[0])] for its antiderivative [P], on any grid. *)
Theorem X17_RungeKutta4_cubic_in_time (c0 c1 c2 c3 r0 : Q) (t : list Q) :
  (1 <= length t)%nat ->
  exists r,
    RungeKutta4 (fun _ s => peval [c0; c1; c2; c3] s) r0 t = Return r /\
    length r = length t /\
    forall n, (n < length t)%nat ->
      nth n r 0 == r0 + (peval [0; c0; c1 / 2; c2 / 3; c3 / 4] (nth n t 0)
                         - peval [0; c0; c1 / 2; c2 / 3; c3 / 4] (nth 0 t 0)).
Proof.
  intros HN. eexists. split; [apply RungeKutta4_trajectory, HN|].
  split; [rewrite length_map, length_seq; reflexivity|].
  intros n Hn. rewrite map_seq_nth by lia.
  induction n as [|n IH]; [cbn [rk4_at]; ring|].
  cbn [rk4_at]. rewrite IH by lia. rewrite step_of_delta by lia.
  unfold delta, time_of. cbn [peval]. field.
Qed.

Lemma X17_RungeKutta4_cubic_in_time_witness :
  exists r,
    RungeKutta4 (fun _ s => peval [1; 0; 3; 4] s) 0 [0; 1; 3] = Return r /\
    length r = 3%nat /\
    forall n, (n < 3)%nat ->
      nth n r 0 == 0 + (peval [0; 1; 0 / 2; 3 / 3; 4 / 4] (nth n [0; 1; 3] 0)
                        - peval [0; 1; 0 / 2; 3 / 3; 4 / 4] 0).
Proof.
  apply (X17_RungeKutta4_cubic_in_time 1 0 3 4 0 [0; 1; 3]). simpl. lia.
Defined.

(** X18. [RungeKutta4] on [r' = lam r]: each step multiplies the value by
    [1 + z + z^2/2 + z^3/6 + z^4/24] with [z = lam (t[n+1] - t[n])]. *)
Theorem X18_RungeKutta4_linear (lam r0 : Q) (t : list Q) :
  (1 <= length t)%nat ->
  exists r,
    RungeKutta4 (fun u _ => lam * u) r0 t = Return r /\ length r = length t /\
    forall n, (n + 1 < length t)%nat ->
      let z := lam * delta t n in
      nth (S n) r 0 == nth n r 0 * (1 + z + z ^ 2 / 2 + z ^ 3 / 6 + z ^ 4 / 24).
Proof.
  intros HN. eexists. split; [apply RungeKutta4_trajectory, HN|].
  split; [rewrite length_map, length_seq; reflexivity|].
  intros n Hn z. rewrite !map_seq_nth by lia. cbn [rk4_at].
  rewrite step_of_delta by lia. unfold z. field.
Qed.

Lemma X18_RungeKutta4_linear_witness :
  exists r,
    RungeKutta4 (fun u _ => -1 * u) 1 [0; 1; 3] = Return r /\ length r = 3%nat /\
    forall n, (n + 1 < 3)%nat ->
      let z := -1 * delta [0; 1; 3] n in
      nth (S n) r 0 == nth n r 0 * (1 + z + z ^ 2 / 2 + z ^ 3 / 6 + z ^ 4 / 24).
Proof.
  apply (X18_RungeKutta4_linear (-1) 1 [0; 1; 3]). simpl. lia.
Defined.

(** X19. [SaltoRana] is exact for a constant acceleration [g]: position
    [r0 + v0 tau + g tau^2 / 2] and velocity [v0 + g tau] at
    [tau = t[n] - t[0]], on any grid. *)
Theorem X19_SaltoRana_constant_acceleration (g r0 v0 : Q) (t : list Q) :
  (1 <= length t)%nat ->
  exists r v,
    SaltoRana (fun _ _ => g) r0 v0 t = Return (r, v) /\
    length r = length t /\ length v = length t /\
    forall n, (n < length t)%nat ->
      let tau := nth n t 0 - nth 0 t 0 in
      nth n r 0 == r0 + v0 * tau + g / 2 * tau ^ 2 /\
      nth n v 0 == v0 + g * tau.
Proof.
  intros HN. eexists. eexists. split; [apply SaltoRana_trajectory, HN|].
  split; [rewrite length_map, length_seq; reflexivity|].
  split; [rewrite length_map, length_seq; reflexivity|].
  intros n Hn tau.
  rewrite (map_seq_nth (fun n => fst _)), (map_seq_nth (fun n => snd _)) by lia.
  unfold tau. clear tau.
  induction n as [|n IH]; [cbn [leap_at fst snd]; split; field|].
  destruct (IH ltac:(lia)) as [IHr IHv].
  cbn [leap_at fst snd]. rewrite IHr, IHv. rewrite step_of_delta by lia.
  unfold delta. split; field.
Qed.

Lemma X19_SaltoRana_constant_acceleration_witness :
  exists r v,
    SaltoRana (fun _ _ => -10) 0 5 [0; 1; 3] = Return (r, v) /\
    length r = 3%nat /\ length v = 3%nat /\
    forall n, (n < 3)%nat ->
      let tau := nth n [0; 1; 3] 0 - 0 in
      nth n r 0 == 0 + 5 * tau + -10 / 2 * tau ^ 2 /\
      nth n v 0 == 5 + -10 * tau.
Proof.
  apply (X19_SaltoRana_constant_acceleration (-10) 0 5 [0; 1; 3]). simpl. lia.
Defined.

(** X20. [EulerCromer] never returns: it passes the tuple [t.shape] where
    the other integrators pass [t.size], and raises [TypeError] on every
    input. *)
Theorem X20_EulerCromer_type_error (a : callback) (r0 v0 : Q) (t : list Q) :
  EulerCromer a r0 v0 t = Throw TypeError.
Proof. reflexivity. Qed.

(** X21. [segundo_orden.SaltoRana] by number of steps: a negative number
    raises [ValueError], zero raises [IndexError], and a positive number
    returns three arrays of that length, with times [t0 + n dt] and the
    initial conditions in front. *)
Theorem X21_segundo_orden_steps (a : Q -> Q -> Q) (r0 v0 t0 dt : Q) (steps : Z) :
  match (steps ?= 0)%Z with
  | Lt => segundo_orden.SaltoRana a r0 v0 t0 dt steps = Throw (Builtin ValueError)
  | Eq => segundo_orden.SaltoRana a r0 v0 t0 dt steps = Throw (Builtin IndexError)
  | Gt =>
      exists t r v,
        segundo_orden.SaltoRana a r0 v0 t0 dt steps = Return (t, r, v) /\
        length t = Z.to_nat steps /\ length r = Z.to_nat steps /\
        length v = Z.to_nat steps /\
        nth 0 r 0 = r0 /\ nth 0 v 0 = v0 /\
        forall n, (n < Z.to_nat steps)%nat ->
          nth n t 0 = t0 + inject_Z (Z.of_nat n) * dt
  end.
Proof.
  destruct (Z.compare_spec steps 0) as [->|Hlt|Hgt].
  - reflexivity.
  - unfold segundo_orden.SaltoRana, segundo_orden.zeros.
    destruct (Z.ltb_spec steps 0); [reflexivity|lia].
  - eexists. eexists. eexists.
    split; [apply segundo_SaltoRana_trajectory; lia|].
    split; [apply uniform_times_length|].
    split; [rewrite length_map, length_seq; reflexivity|].
    split; [rewrite length_map, length_seq; reflexivity|].
    split; [rewrite (map_seq_nth (fun n => fst _)) by lia; reflexivity|].
    split; [rewrite (map_seq_nth (fun n => snd _)) by lia; reflexivity|].
    intros n Hn. apply uniform_times_nth, Hn.
Qed.

Lemma rev_time (t : list Q) (n : nat) :
  (n < length t)%nat -> nth n (rev t) 0 = nth (length t - 1 - n) t 0.
Proof.
  intros H. rewrite rev_nth by exact H. f_equal. lia.
Qed.

Lemma leap_at_S (a : Q -> Q -> Q) (r0 v0 : Q) (h tm : nat -> Q) (m : nat) :
  leap_at a r0 v0 h tm (S m)
  = (fst (leap_at a r0 v0 h tm m)
     + h m * (snd (leap_at a r0 v0 h tm m)
              + (1 # 2) * h m * a (fst (leap_at a r0 v0 h tm m)) (tm m)),
     snd (leap_at a r0 v0 h tm m)
     + (1 # 2) * h m * a (fst (leap_at a r0 v0 h tm m)) (tm m)
     + (1 # 2) * h m
       * a (fst (leap_at a r0 v0 h tm m)
            + h m * (snd (leap_at a r0 v0 h tm m)
                     + (1 # 2) * h m * a (fst (leap_at a r0 v0 h tm m)) (tm m)))
           (tm (S m))).
Proof. reflexivity. Qed.

Lemma leap_reverse (a : callback) (r0 v0 : Q) (t : list Q) (n : nat) :
  respects_eq a -> (n < length t)%nat ->
  let L := leap_at a r0 v0 (step_of t) (time_of t) in
  let L' := leap_at a (fst (L (length t - 1)%nat)) (snd (L (length t - 1)%nat))
              (step_of (rev t)) (time_of (rev t)) in
  fst (L' n) == fst (L (length t - 1 - n)%nat) /\
  snd (L' n) == snd (L (length t - 1 - n)%nat).
Proof.
  intros Ha Hn. cbv zeta.
  induction n as [|n IH].
  - rewrite Nat.sub_0_r. cbn [leap_at fst snd]. split; reflexivity.
  - destruct (IH ltac:(lia)) as [IHr IHv].
    assert (Em : (length t - 1 - n = S (length t - 1 - S n))%nat) by lia.
    rewrite Em in IHr, IHv. set (m := (length t - 1 - S n)%nat) in *.
    assert (Hm : (m + 1 < length t)%nat) by (unfold m; lia).
    rewrite leap_at_S in IHr, IHv. cbn [fst snd] in IHr, IHv.
    rewrite leap_at_S. cbn [fst snd].
    assert (Eh : step_of (rev t) n == - step_of t m).
    { rewrite !step_of_delta by (rewrite ?length_rev; lia). unfold delta.
      rewrite !rev_time by lia.
      replace (length t - 1 - S n)%nat with m by reflexivity.
      replace (length t - 1 - n)%nat with (S m) by lia. ring. }
    assert (Et0 : time_of (rev t) n = time_of t (S m)).
    { unfold time_of. rewrite rev_time by lia. f_equal. lia. }
    assert (Et1 : time_of (rev t) (S n) = time_of t m).
    { unfold time_of. rewrite rev_time by lia. reflexivity. }
    rewrite Et0, Et1.
    set (P := leap_at a r0 v0 (step_of t) (time_of t) m) in *.
    set (P' := leap_at a _ _ (step_of (rev t)) (time_of (rev t)) n) in *.
    set (h := step_of t m) in *. set (h' := step_of (rev t) n) in *.
    set (rp := fst P) in *. set (vp := snd P) in *.
    set (r' := fst P') in *. set (v' := snd P') in *.
    set (tp := time_of t m) in *. set (tq := time_of t (S m)) in *.
    set (vm := vp + (1 # 2) * h * a rp tp) in *.
    set (rq := rp + h * vm) in *.
    assert (A1 : a r' tq == a rq tq) by (apply Ha; [exact IHr|reflexivity]).
    assert (Vm : v' + (1 # 2) * h' * a r' tq == vm).
    { rewrite A1, IHv, Eh. ring. }
    assert (Rp : r' + h' * (v' + (1 # 2) * h' * a r' tq) == rp).
    { rewrite Vm, IHr, Eh. unfold rq. ring. }
    split; [exact Rp|].
    assert (A2 : a (r' + h' * (v' + (1 # 2) * h' * a r' tq)) tp == a rp tp)
      by (apply Ha; [exact Rp|reflexivity]).
    rewrite A2, Vm, Eh. unfold vm. ring.
Qed.

(** X22. Time reversal: integrating with [SaltoRana] from the final position
    and velocity over the reversed grid retraces the trajectory backwards,
    down to the initial conditions. *)
Theorem X22_SaltoRana_time_reversal (a : callback) (r0 v0 : Q) (t : list Q) :
  respects_eq a -> (1 <= length t)%nat ->
  exists r v r' v',
    SaltoRana a r0 v0 t = Return (r, v) /\
    SaltoRana a (nth (length t - 1) r 0) (nth (length t - 1) v 0) (rev t)
    = Return (r', v') /\
    forall n, (n < length t)%nat ->
      nth n r' 0 == nth (length t - 1 - n) r 0 /\
      nth n v' 0 == nth (length t - 1 - n) v 0.
Proof.
  intros Ha HN. eexists. eexists. eexists. eexists.
  split; [apply SaltoRana_trajectory, HN|].
  split.
  - rewrite (SaltoRana_trajectory a _ _ (rev t)) by (rewrite length_rev; exact HN).
    rewrite length_rev. reflexivity.
  - intros n Hn.
    rewrite !(map_seq_nth (fun n => fst _)), !(map_seq_nth (fun n => snd _)) by lia.
    apply leap_reverse; assumption.
Qed.

Lemma X22_SaltoRana_time_reversal_witness :
  exists r v r' v',
    SaltoRana (fun u _ => - (4 * u)) 1 0 [0; 1; 3] = Return (r, v) /\
    SaltoRana (fun u _ => - (4 * u)) (nth (3 - 1) r 0) (nth (3 - 1) v 0) (rev [0; 1; 3])
    = Return (r', v') /\
    forall n, (n < 3)%nat ->
      nth n r' 0 == nth (3 - 1 - n) r 0 /\
      nth n v' 0 == nth (3 - 1 - n) v 0.
Proof.
  apply (X22_SaltoRana_time_reversal (fun u _ => - (4 * u)) 1 0 [0; 1; 3]).
  - exact respects_eq_spring.
  - simpl. lia.
Defined.

Lemma uniform_step (t0 dt : Q) (steps : Z) (n : nat) :
  (n + 1 < Z.to_nat steps)%nat ->
  step_of (uniform_times t0 dt steps) n == dt.
Proof.
  intros H. rewrite step_of_delta by (rewrite uniform_times_length; lia).
  unfold delta. rewrite !uniform_times_nth by lia.
  rewrite Nat2Z.inj_succ, <- Z.add_1_r, inject_Z_plus. change (inject_Z 1) with 1. ring.
Qed.

Lemma uniform_time_eq (t0 dt : Q) (steps : Z) (n : nat) :
  (n < Z.to_nat steps)%nat ->
  uniform_time t0 dt steps n == time_of (uniform_times t0 dt steps) n.
Proof.
  intros H. unfold time_of. destruct n as [|n]; [|reflexivity].
  cbn [uniform_time]. rewrite uniform_times_nth by exact H.
  change (inject_Z (Z.of_nat 0)) with 0. ring.
Qed.

Lemma leap_uniform (a : callback) (r0 v0 t0 dt : Q) (steps : Z) (n : nat) :
  respects_eq a -> (n < Z.to_nat steps)%nat ->
  let T := uniform_times t0 dt steps in
  let L1 := leap_at a r0 v0 (fun _ => dt) (uniform_time t0 dt steps) in
  let L2 := leap_at a r0 v0 (step_of T) (time_of T) in
  fst (L1 n) == fst (L2 n) /\ snd (L1 n) == snd (L2 n).
Proof.
  intros Ha Hn. cbv zeta.
  induction n as [|n IH]; [cbn [leap_at fst snd]; split; reflexivity|].
  destruct (IH ltac:(lia)) as [IHr IHv].
  rewrite !leap_at_S. cbn [fst snd].
  pose proof (uniform_step t0 dt steps n ltac:(lia)) as Eh.
  pose proof (uniform_time_eq t0 dt steps n ltac:(lia)) as Et0.
  pose proof (uniform_time_eq t0 dt steps (S n) ltac:(lia)) as Et1.
  set (P1 := leap_at a r0 v0 (fun _ => dt) (uniform_time t0 dt steps) n) in *.
  set (P2 := leap_at a r0 v0 (step_of (uniform_times t0 dt steps))
               (time_of (uniform_times t0 dt steps)) n) in *.
  set (h := step_of (uniform_times t0 dt steps) n) in *.
  set (s0 := uniform_time t0 dt steps n) in *.
  set (s0' := time_of (uniform_times t0 dt steps) n) in *.
  set (s1 := uniform_time t0 dt steps (S n)) in *.
  set (s1' := time_of (uniform_times t0 dt steps) (S n)) in *.
  assert (A1 : a (fst P1) s0 == a (fst P2) s0') by (apply Ha; assumption).
  set (X := a (fst P1) s0) in *. set (X' := a (fst P2) s0') in *.
  clearbody X X'.
  assert (R1 : fst P1 + dt * (snd P1 + (1 # 2) * dt * X)
               == fst P2 + h * (snd P2 + (1 # 2) * h * X')).
  { rewrite A1, IHv, IHr, Eh. reflexivity. }
  split; [exact R1|].
  assert (A2 : a (fst P1 + dt * (snd P1 + (1 # 2) * dt * X)) s1
               == a (fst P2 + h * (snd P2 + (1 # 2) * h * X')) s1')
    by (apply Ha; assumption).
  set (Y := a (fst P1 + dt * (snd P1 + (1 # 2) * dt * X)) s1) in *.
  set (Y' := a (fst P2 + h * (snd P2 + (1 # 2) * h * X')) s1') in *.
  clearbody Y Y'.
  rewrite A1, A2, IHv, Eh. reflexivity.
Qed.

(** X23. The two [SaltoRana] agree: on the uniform grid that
    [segundo_orden.SaltoRana] builds, the one of
    [EcuacionesDiferencialesOrdinarias] returns the same positions and
    velocities. *)
Theorem X23_SaltoRana_implementations_agree
        (a : Q -> Q -> Q) (r0 v0 t0 dt : Q) (steps : Z) :
  respects_eq a -> (1 <= steps)%Z ->
  exists t r v r' v',
    segundo_orden.SaltoRana a r0 v0 t0 dt steps = Return (t, r, v) /\
    SaltoRana a r0 v0 t = Return (r', v') /\
    forall n, (n < Z.to_nat steps)%nat ->
      nth n r 0 == nth n r' 0 /\ nth n v 0 == nth n v' 0.
Proof.
  intros Ha HN. eexists. eexists. eexists. eexists. eexists.
  split; [apply segundo_SaltoRana_trajectory, HN|].
  split; [apply SaltoRana_trajectory; rewrite uniform_times_length; lia|].
  intros n Hn. rewrite uniform_times_length.
  rewrite !(map_seq_nth (fun n => fst _)), !(map_seq_nth (fun n => snd _)) by lia.
  apply leap_uniform; assumption.
Qed.

Lemma X23_SaltoRana_implementations_agree_witness :
  exists t r v r' v',
    segundo_orden.SaltoRana (fun u _ => - (4 * u)) 1 0 0 (1 # 10) 4 = Return (t, r, v) /\
    SaltoRana (fun u _ => - (4 * u)) 1 0 t = Return (r', v') /\
    forall n, (n < Z.to_nat 4)%nat ->
      nth n r 0 == nth n r' 0 /\ nth n v 0 == nth n v' 0.
Proof.
  apply (X23_SaltoRana_implementations_agree (fun u _ => - (4 * u)) 1 0 0 (1 # 10) 4).
  - exact respects_eq_spring.
  - lia.
Defined.

(** X24. Harmonic oscillator: with the acceleration [- w2 r],
    [segundo_orden.SaltoRana] keeps [v^2 + w2 (1 - w2 dt^2 / 4) r^2] at its
    initial value at every step. *)
Theorem X24_SaltoRana_oscillator_energy (w2 r0 v0 t0 dt : Q) (steps : Z) :
  (1 <= steps)%Z ->
  exists t r v,
    segundo_orden.SaltoRana (fun u _ => - (w2 * u)) r0 v0 t0 dt steps = Return (t, r, v) /\
    forall n, (n < Z.to_nat steps)%nat ->
      nth n v 0 ^ 2 + w2 * (1 - w2 * dt ^ 2 / 4) * nth n r 0 ^ 2
      == v0 ^ 2 + w2 * (1 - w2 * dt ^ 2 / 4) * r0 ^ 2.
Proof.
  intros HN. eexists. eexists. eexists.
  split; [apply segundo_SaltoRana_trajectory, HN|].
  intros n Hn.
  rewrite (map_seq_nth (fun n => fst _)), (map_seq_nth (fun n => snd _)) by lia.
  induction n as [|n IH]; [cbn [leap_at fst snd]; reflexivity|].
  rewrite <- IH by lia. rewrite leap_at_S. cbn [fst snd]. field.
Qed.

Lemma X24_SaltoRana_oscillator_energy_witness :
  exists t r v,
    segundo_orden.SaltoRana (fun u _ => - (4 * u)) 1 0 0 (1 # 10) 4 = Return (t, r, v) /\
    forall n, (n < Z.to_nat 4)%nat ->
      nth n v 0 ^ 2 + 4 * (1 - 4 * (1 # 10) ^ 2 / 4) * nth n r 0 ^ 2
      == 0 ^ 2 + 4 * (1 - 4 * (1 # 10) ^ 2 / 4) * 1 ^ 2.
Proof.
  apply (X24_SaltoRana_oscillator_energy 4 1 0 0 (1 # 10) 4). lia.
Defined.
